(** * atopile viewer: the hierarchy builder [Bob] of [atopile/viewer/render.py]

    A shallow embedding of the render module: the output tree ([Pin],
    [Link], [Block] and their [to_dict]), the builder's traversal
    ([generic_visit_block], [wander_interface], [visit_interface],
    [visit_pin], [visit_signal]) and the link pass of [Bob.build]. *)

From Stdlib Require Import String Ascii List Arith Lia Bool.
From stdpp Require Import gmap strings list.
Import ListNotations.

Set Warnings "-register-all".

Open Scope string_scope.
Open Scope list_scope.

(** ** Python values *)

(** [Any]: the values a field mapping and a serialized record are made of.
    A [dict] keeps its insertion order, so it is an association list. *)
Inductive Any : Type :=
| ANone
| ABool (b : bool)
| AInt (z : Z)
| AStr (s : string)
| AList (l : list Any)
| ADict (d : list (string * Any)).

(** [d.get(key, default)] on a [dict]. *)
Fixpoint dict_get (d : list (string * Any)) (key : string) (default : Any) : Any :=
  match d with
  | [] => default
  | (k, v) :: d' => if String.eqb k key then v else dict_get d' key default
  end.

(** [key in d] and [d[key]] together: [None] when the key is not in [d]. *)
Fixpoint dict_lookup (d : list (string * Any)) (key : string) : option Any :=
  match d with
  | [] => None
  | (k, v) :: d' => if String.eqb k key then Some v else dict_lookup d' key
  end.

(** [sep.join(parts)]. *)
Definition join (sep : string) (parts : list string) : string :=
  String.concat sep parts.

(** An [Optional[str]] as a Python value. *)
Definition opt_str (o : option string) : Any :=
  match o with
  | Some s => AStr s
  | None => ANone
  end.

(** ** The graph model read by the builder *)

Inductive VertexType : Type :=
| file | module | component | interface | pin | signal.

Inductive EdgeType : Type :=
| part_of | instance_of | connects_to.

#[export] Instance VertexType_eq_dec : EqDecision VertexType.
Proof. solve_decision. Defined.

#[export] Instance EdgeType_eq_dec : EqDecision EdgeType.
Proof. solve_decision. Defined.

(** [VertexType.<t>.name] *)
Definition vertex_type_name (t : VertexType) : string :=
  match t with
  | file => "file"
  | module => "module"
  | component => "component"
  | interface => "interface"
  | pin => "pin"
  | signal => "signal"
  end.

(** What a [ModelVertexView] reports of its vertex. *)
Record Vertex : Type := mkVertex {
  vertex_type : VertexType;
  ref : string;
  path : string;
  parent_path : string;
  data : Any
}.

Record Edge : Type := mkEdge {
  source : nat;
  target : nat;
  type : EdgeType
}.

(** [Model]: [graph.vs] gives the attributes of the vertex at an index,
    [graph.es] is the edge sequence in edge-index order, [model_data] is
    [model.data].  The builder never enumerates the vertices: it only reads
    the attributes at indices it got from [main] or from an edge. *)
Record Model : Type := mkModel {
  vs : nat -> Vertex;
  es : list Edge;
  model_data : gmap string (list (string * Any))
}.

(** A [ModelVertexView] of a fixed model is the index of its vertex. *)
Abbreviation ModelVertexView := nat.

(** ** The output tree *)

Module Pin.
Record t : Type := mk {
  name : string;
  fields : Any
}.

Definition to_dict (self : t) : list (string * Any) :=
  [("name", AStr (name self)); ("fields", fields self)].
End Pin.

Module Link.
Record t : Type := mk {
  name : string;
  source : string;
  target : string
}.

Definition to_dict (self : t) : list (string * Any) :=
  [("name", AStr (name self));
   ("source", AStr (source self));
   ("target", AStr (target self))].
End Link.

Module Block.
(** [oid] is the identity of the Python object: the directory of the
    builder refers to a [Block] by it, and [links] is the one field that
    is written through that reference. *)
Inductive t : Type := mk {
  name : string;
  type : string;
  fields : Any;
  blocks : list t;
  pins : list Pin.t;
  links : list Link.t;
  instance_of : option string;
  source : ModelVertexView;
  oid : nat
}.

Fixpoint to_dict (self : t) : list (string * Any) :=
  match self with
  | mk name type fields blocks pins links instance_of _ _ =>
      [("name", AStr name);
       ("type", AStr type);
       ("fields", fields);
       ("blocks", AList (map (fun block => ADict (to_dict block)) blocks));
       ("pins", AList (map (fun pin => ADict (Pin.to_dict pin)) pins));
       ("links", AList (map (fun link => ADict (Link.to_dict link)) links));
       ("instance_of", opt_str instance_of)]
  end.
End Block.

(** ** Exceptions and the builder's state *)

Inductive Error : Type :=
| RecursionError
| KeyError (key : string)
| IndexError
| TypeError
| UnboundLocalError
| NotImplementedError.

Inductive Res (A : Type) : Type :=
| Ok (a : A)
| Raise (e : Error).

Arguments Ok {A} a.
Arguments Raise {A} e.

(** What [visit] can return: [None], a [Pin], a [Block] or a list of pins. *)
Inductive Visited : Type :=
| VNone
| VPin (p : Pin.t)
| VBlock (b : Block.t)
| VPins (ps : list Pin.t).

Inductive Mode : Type := mode_in | mode_out.

(** The attributes of [Bob], together with what the traversal writes
    outside of it: [next_oid] is the identity the next [Block] object gets
    and [log] holds the messages of [log.warning], oldest first.
    [block_directory_by_path] holds references to [Block] objects, that is
    their [oid]s.  [pin_directory_by_vid] is written and never read; it
    keeps each pin as it was created. *)
Record BobState : Type := mkBob {
  all_verticies : list ModelVertexView;
  block_stack : list ModelVertexView;
  block_directory_by_path : gmap string nat;
  pin_directory_by_vid : gmap nat Pin.t;
  next_oid : nat;
  log : list string
}.

(** [Bob(model)] *)
Definition Bob_init : BobState :=
  {| all_verticies := [];
     block_stack := [];
     block_directory_by_path := ∅;
     pin_directory_by_vid := ∅;
     next_oid := 0;
     log := [] |}.

(** A method of [Bob]: it reads and writes the builder and returns or raises. *)
Definition M (A : Type) : Type := BobState -> Res (A * BobState).

Definition ret {A} (a : A) : M A := fun bob => Ok (a, bob).

Definition raise {A} (e : Error) : M A := fun _ => Raise e.

Definition bind {A B} (c : M A) (k : A -> M B) : M B :=
  fun bob =>
    match c bob with
    | Ok (a, bob') => k a bob'
    | Raise e => Raise e
    end.

Definition lift {A} (r : Res A) : M A :=
  fun bob =>
    match r with
    | Ok a => Ok (a, bob)
    | Raise e => Raise e
    end.

Definition modify (f : BobState -> BobState) : M unit :=
  fun bob => Ok (tt, f bob).

Notation "'let*' x ':=' c 'in' k" := (bind c (fun x => k))
  (at level 10, x name, c at level 100, k at level 200, only parsing).

Notation "c ';;' k" := (bind c (fun _ => k))
  (at level 100, k at level 200, right associativity, only parsing).

(** [[f(x) for x in xs]], left to right. *)
Fixpoint mapM {A B} (f : A -> M B) (xs : list A) : M (list B) :=
  match xs with
  | [] => ret []
  | x :: xs' =>
      let* y := f x in
      let* ys := mapM f xs' in
      ret (y :: ys)
  end.

(** ** The collaborators of the builder *)

(** The two path operations of [atopile.model.names] and
    [atopile.model.accessors] that [Bob.build] consumes:
    [resolve_rel_name] gives the least common ancestor of the given
    vertices and the name of their connection, [relative_mvv_path lca v]
    the vertices on the way from [lca] down to [v].  Both are taken where
    they return: an exception raised inside them is not part of this
    development, and no statement below is about one. *)
Class Ancestry : Type := {
  resolve_rel_name : Model -> list ModelVertexView -> ModelVertexView * string;
  relative_mvv_path : Model -> ModelVertexView -> ModelVertexView -> list ModelVertexView
}.

Section GraphModel.
Variable model : Model.

(** Modelled from the spec: [ModelVertexView.get_edges(mode, edge_type)]
    is missing from the sources. The edges of the given type that point
    into the vertex ([mode_in]) or out of it ([mode_out]), in the order of
    the edge sequence. *)
Definition get_edges (self : ModelVertexView) (mode : Mode) (edge_type : EdgeType)
  : list Edge :=
  List.filter
    (fun e =>
       bool_decide (type e = edge_type)
       && match mode with
          | mode_in => Nat.eqb (target e) self
          | mode_out => Nat.eqb (source e) self
          end)
    (es model).

(** Modelled from the spec: [ModelVertexView.get_adjacents(mode, edge_type)]
    is missing from the sources. The vertices at the other end of
    [get_edges], one per edge. *)
Definition get_adjacents (self : ModelVertexView) (mode : Mode) (edge_type : EdgeType)
  : list ModelVertexView :=
  map (fun e => match mode with
                | mode_in => source e
                | mode_out => target e
                end)
      (get_edges self mode edge_type).

(** Modelled from the spec: the properties of [ModelVertexView] are missing
    from the sources. A view gives the type tag, the local name, the path,
    the parent path and the field mapping of its vertex. *)
Definition mvv_type (self : ModelVertexView) : VertexType := vertex_type (vs model self).
Definition mvv_ref (self : ModelVertexView) : string := ref (vs model self).
Definition mvv_path (self : ModelVertexView) : string := path (vs model self).
Definition mvv_parent_path (self : ModelVertexView) : string := parent_path (vs model self).
Definition mvv_data (self : ModelVertexView) : Any := data (vs model self).

(** [model.graph.es.select(type_eq=EdgeType.connects_to.name)] *)
Definition connections : list Edge :=
  List.filter (fun e => bool_decide (type e = connects_to)) (es model).
End GraphModel.

(** ** The builder *)

Section Builder.
Variable model : Model.

(** [self.all_verticies.append(vertex)] *)
Definition record_vertex (vertex : ModelVertexView) : M unit :=
  modify (fun bob =>
    {| all_verticies := all_verticies bob ++ [vertex];
       block_stack := block_stack bob;
       block_directory_by_path := block_directory_by_path bob;
       pin_directory_by_vid := pin_directory_by_vid bob;
       next_oid := next_oid bob;
       log := log bob |}).

(** Entering and leaving [block_context]. *)
Definition push_block (block : ModelVertexView) : M unit :=
  modify (fun bob =>
    {| all_verticies := all_verticies bob;
       block_stack := block_stack bob ++ [block];
       block_directory_by_path := block_directory_by_path bob;
       pin_directory_by_vid := pin_directory_by_vid bob;
       next_oid := next_oid bob;
       log := log bob |}).

Definition pop_block : M unit :=
  modify (fun bob =>
    {| all_verticies := all_verticies bob;
       block_stack := removelast (block_stack bob);
       block_directory_by_path := block_directory_by_path bob;
       pin_directory_by_vid := pin_directory_by_vid bob;
       next_oid := next_oid bob;
       log := log bob |}).

(** [log.warning(msg)] *)
Definition log_warning (msg : string) : M unit :=
  modify (fun bob =>
    {| all_verticies := all_verticies bob;
       block_stack := block_stack bob;
       block_directory_by_path := block_directory_by_path bob;
       pin_directory_by_vid := pin_directory_by_vid bob;
       next_oid := next_oid bob;
       log := log bob ++ [msg] |}).

(** The identity of a newly made [Block]. *)
Definition new_oid : M nat :=
  fun bob =>
    Ok (next_oid bob,
        {| all_verticies := all_verticies bob;
           block_stack := block_stack bob;
           block_directory_by_path := block_directory_by_path bob;
           pin_directory_by_vid := pin_directory_by_vid bob;
           next_oid := S (next_oid bob);
           log := log bob |}).

(** [self.block_directory_by_path[path] = block] *)
Definition set_block_directory (path : string) (block : Block.t) : M unit :=
  modify (fun bob =>
    {| all_verticies := all_verticies bob;
       block_stack := block_stack bob;
       block_directory_by_path := <[path := Block.oid block]> (block_directory_by_path bob);
       pin_directory_by_vid := pin_directory_by_vid bob;
       next_oid := next_oid bob;
       log := log bob |}).

(** [self.pin_directory_by_vid[vid] = pin] *)
Definition set_pin_directory (vid : nat) (pin : Pin.t) : M unit :=
  modify (fun bob =>
    {| all_verticies := all_verticies bob;
       block_stack := block_stack bob;
       block_directory_by_path := block_directory_by_path bob;
       pin_directory_by_vid := <[vid := pin]> (pin_directory_by_vid bob);
       next_oid := next_oid bob;
       log := log bob |}).

Definition generic_visit_pin (vertex : ModelVertexView) : M Pin.t :=
  let vertex_data := default [] (model_data model !! mvv_path model vertex) in
  let pin := Pin.mk (mvv_ref model vertex) (dict_get vertex_data "fields" (ADict [])) in
  set_pin_directory vertex pin ;;
  ret pin.

(** The vertex at the other end of the one connection of [visit_pin]:
    the two [if]s that bind [target], in their order; [None] is the
    unbound variable. *)
Definition sole_target (connections_in connections_out : list Edge)
  : option ModelVertexView :=
  let unbound : option ModelVertexView := None in
  let target1 :=
    if Nat.eqb (length connections_in) 1
    then option_map source (head connections_in)
    else unbound in
  let target2 :=
    if Nat.eqb (length connections_out) 1
    then option_map target (head connections_out)
    else target1 in
  target2.

Definition visit_pin (vertex : ModelVertexView) : M (option Pin.t) :=
  record_vertex vertex ;;
  (* filter out pins that have a single connection to a signal within the same block *)
  let connections_in := get_edges model vertex mode_in connects_to in
  let connections_out := get_edges model vertex mode_out connects_to in
  let* filtered_out :=
    if Nat.eqb (length connections_in + length connections_out) 1
    then
      match sole_target connections_in connections_out with
      | None => raise UnboundLocalError
      | Some target =>
          if bool_decide (mvv_type model target = signal)
          then
            if String.eqb (mvv_parent_path model target) (mvv_parent_path model vertex)
            then ret true
            else ret false
          else ret false
      end
    else ret false in
  if filtered_out : bool
  then ret None
  else
    let* pin := generic_visit_pin vertex in
    ret (Some pin).

Definition visit_signal (vertex : ModelVertexView) : M Pin.t :=
  record_vertex vertex ;;
  generic_visit_pin vertex.

(** *** The methods that recurse, over the [visit] they call *)

Section Open.
(** [self.visit], as called by [wander]. *)
Variable visit : ModelVertexView -> M Visited.

(** Modelled from the spec: [ModelVisitor.wander] is missing from the
    sources. It visits, in order, the adjacent vertices in the given
    direction over the given edge type whose type is one of
    [vertex_types], and returns the list of the results. *)
Definition wander (vertex : ModelVertexView) (mode : Mode) (edge_type : EdgeType)
           (vertex_types : list VertexType) : M (list Visited) :=
  mapM visit
       (List.filter (fun a => bool_decide (mvv_type model a ∈ vertex_types))
                    (get_adjacents model vertex mode edge_type)).

(** The loop of [wander_interface] over what is not [None]. A [Block]
    cannot be put into the typed list of pins; the visit of a pin, a signal
    or an interface never returns one. *)
Fixpoint splice_pins (listy_pins : list Visited) (pins : list Pin.t)
  : Res (list Pin.t) :=
  match listy_pins with
  | [] => Ok pins
  | listy_pin :: rest =>
      match listy_pin with
      | VPins listy => splice_pins rest (pins ++ listy)
      | VPin p => splice_pins rest (pins ++ [p])
      | VNone => splice_pins rest pins
      | VBlock _ => Raise TypeError
      end
  end.

Definition wander_interface (vertex : ModelVertexView) : M (list Pin.t) :=
  let* visited := wander vertex mode_in part_of [pin; signal; interface] in
  let listy_pins :=
    List.filter (fun x => match x with VNone => false | _ => true end) visited in
  lift (splice_pins listy_pins []).

(** [pin.name = vertex.ref + "-" + pin.name] *)
Definition prefix_pin (vertex : ModelVertexView) (p : Pin.t) : Pin.t :=
  Pin.mk (mvv_ref model vertex +:+ "-" +:+ Pin.name p) (Pin.fields p).

(** The program renames the [Pin] objects in place; the list of pins is
    rebuilt here with the new names.  The entries of
    [pin_directory_by_vid], which the program writes and never reads, keep
    the pin as it was entered. *)
Definition visit_interface (vertex : ModelVertexView) : M (list Pin.t) :=
  let* pins := wander_interface vertex in
  ret (map (prefix_pin vertex) pins).

(** [blocks: List[Block] = self.wander(...)]: the results are blocks. *)
Fixpoint as_blocks (visited : list Visited) : Res (list Block.t) :=
  match visited with
  | [] => Ok []
  | VBlock b :: rest =>
      match as_blocks rest with
      | Ok bs => Ok (b :: bs)
      | Raise e => Raise e
      end
  | _ :: _ => Raise TypeError
  end.

(** [# find subelements]: the child blocks and the pins of a block. *)
Definition find_subelements (vertex : ModelVertexView)
  : M (list Block.t * list Pin.t) :=
  let* visited := wander vertex mode_in part_of [component; module] in
  let* blocks := lift (as_blocks visited) in
  let* pins := wander_interface vertex in
  ret (blocks, pins).

(** [# check the type of this block] *)
Definition check_instance_of (vertex : ModelVertexView) : M (option string) :=
  let instance_ofs := get_adjacents model vertex mode_out instance_of in
  if Nat.ltb 0 (length instance_ofs)
  then
    (if Nat.ltb 1 (length instance_ofs)
     then log_warning ("Block " +:+ mvv_path model vertex
                       +:+ " is an instance_of multiple things")
     else ret tt) ;;
    match head instance_ofs with
    | Some first => ret (Some (mvv_path model first))
    | None => raise IndexError
    end
  else ret None.

Definition generic_visit_block (vertex : ModelVertexView) : M Block.t :=
  record_vertex vertex ;;
  push_block vertex ;;
  let* subelements := find_subelements vertex in
  let* instance_of := check_instance_of vertex in
  (* do block build *)
  let* oid := new_oid in
  let block :=
    Block.mk (mvv_ref model vertex)
             (vertex_type_name (mvv_type model vertex))
             (mvv_data model vertex)
             (fst subelements)
             (snd subelements)
             []
             instance_of
             vertex
             oid in
  set_block_directory (mvv_path model vertex) block ;;
  pop_block ;;
  ret block.

Definition visit_component (vertex : ModelVertexView) : M Block.t :=
  generic_visit_block vertex.

Definition visit_module (vertex : ModelVertexView) : M Block.t :=
  generic_visit_block vertex.

(** Modelled from the spec: [ModelVisitor.visit] is missing from the
    sources. It dispatches on the type tag of the vertex to the method
    [visit_<type>] of the builder; [Bob] has none for a file, and a type
    without a rule fails loudly. *)
Definition visit_by_type (vertex : ModelVertexView) : M Visited :=
  match mvv_type model vertex with
  | component => let* b := visit_component vertex in ret (VBlock b)
  | module => let* b := visit_module vertex in ret (VBlock b)
  | interface => let* ps := visit_interface vertex in ret (VPins ps)
  | pin =>
      let* r := visit_pin vertex in
      ret (match r with Some p => VPin p | None => VNone end)
  | signal => let* p := visit_signal vertex in ret (VPin p)
  | file => raise NotImplementedError
  end.
End Open.

(** [self.visit], with the depth of the call stack bounded by [fuel]. *)
Fixpoint visit (fuel : nat) (vertex : ModelVertexView) : M Visited :=
  match fuel with
  | 0 => raise RecursionError
  | S fuel' => visit_by_type (visit fuel') vertex
  end.
End Builder.

(** ** The link pass and [Bob.build] *)

Section Build.
Context {ancestry : Ancestry}.
Variable model : Model.

(** The loop of [_mod_path]: [rest] is what is left of [mvv_path] from
    position [i] on. *)
Fixpoint _mod_path_from (mvv_path : list ModelVertexView) (i : nat)
         (rest : list ModelVertexView) : string :=
  match rest with
  | [] => join "." (map (mvv_ref model) mvv_path)
  | mvv :: rest' =>
      if bool_decide (mvv_type model mvv = interface)
      then
        let pre_inf := firstn i mvv_path in
        let post_inf := skipn i mvv_path in
        join "." (map (mvv_ref model) pre_inf)
        +:+ "." +:+ join "-" (map (mvv_ref model) post_inf)
      else _mod_path_from mvv_path (S i) rest'
  end.

(** Make relative paths, supplementing the dots after an interface with
    dashes. *)
Definition _mod_path (mvv_path : list ModelVertexView) : string :=
  _mod_path_from mvv_path 0 mvv_path.

(** The [links] of the [Block] objects, by [oid]: a block that is not in
    the mapping still has the empty list it was made with. *)
Definition links_of (heap : gmap nat (list Link.t)) (oid : nat) : list Link.t :=
  default [] (heap !! oid).

(** The [Link] made for a connection, and the vertex it is scoped to. *)
Definition link_for (connection : Edge) : ModelVertexView * Link.t :=
  let '(lca, link_name) :=
    resolve_rel_name model [source connection; target connection] in
  let rel_source_mvvs := relative_mvv_path model lca (source connection) in
  let rel_target_mvvs := relative_mvv_path model lca (target connection) in
  let link :=
    Link.mk link_name (_mod_path rel_source_mvvs) (_mod_path rel_target_mvvs) in
  (lca, link).

(** One turn of the loop over the connections. *)
Definition link_connection (bob : BobState) (all_indicies : gset nat)
           (heap : gmap nat (list Link.t)) (connection : Edge)
  : Res (gmap nat (list Link.t)) :=
  if negb (bool_decide (source connection ∈ all_indicies))
     || negb (bool_decide (target connection ∈ all_indicies))
  then Ok heap
  else
    let '(lca, link) := link_for connection in
    match block_directory_by_path bob !! mvv_path model lca with
    | None => Raise (KeyError (mvv_path model lca))
    | Some oid => Ok (<[oid := links_of heap oid ++ [link]]> heap)
    end.

Fixpoint link_connections (bob : BobState) (all_indicies : gset nat)
         (heap : gmap nat (list Link.t)) (cs : list Edge)
  : Res (gmap nat (list Link.t)) :=
  match cs with
  | [] => Ok heap
  | connection :: cs' =>
      match link_connection bob all_indicies heap connection with
      | Ok heap' => link_connections bob all_indicies heap' cs'
      | Raise e => Raise e
      end
  end.

(** The tree under a block once the links appended through the
    directory are read back from the objects. *)
Fixpoint with_links (heap : gmap nat (list Link.t)) (b : Block.t) : Block.t :=
  match b with
  | Block.mk name type fields blocks pins links inst src oid =>
      Block.mk name type fields (map (with_links heap) blocks) pins
               (links ++ links_of heap oid) inst src oid
  end.

(** [root.instance_of = path] *)
Definition set_instance_of (b : Block.t) (p : option string) : Block.t :=
  match b with
  | Block.mk name type fields blocks pins links _ src oid =>
      Block.mk name type fields blocks pins links p src oid
  end.

(** [Bob.build], returning the builder along with the root. *)
Definition build_with_bob (fuel : nat) (main : ModelVertexView)
  : Res (Block.t * BobState) :=
  match generic_visit_block model (visit model fuel) main Bob_init with
  | Raise e => Raise e
  | Ok (root, bob) =>
      (* TODO: this logic ultimately belongs in the viewer, because this
         isn't really an instance of anything *)
      let root := set_instance_of root (Some (mvv_path model main)) in
      let all_indicies : gset nat := list_to_set (all_verticies bob) in
      match link_connections bob all_indicies ∅ (connections model) with
      | Raise e => Raise e
      | Ok heap => Ok (with_links heap root, bob)
      end
  end.

Definition build (fuel : nat) (main : ModelVertexView) : Res Block.t :=
  match build_with_bob fuel main with
  | Ok (root, _) => Ok root
  | Raise e => Raise e
  end.
End Build.

(** ** A reference instance of the collaborators *)

Section Reference.
Variable model : Model.

(** Modelled from the spec: the containment chain of a vertex is missing
    from the sources. The container of a vertex is the target of its
    first outbound part_of edge; [ancestors] lists the containers from the
    nearest one up, at most [fuel] of them. *)
Fixpoint ancestors (fuel : nat) (v : ModelVertexView) : list ModelVertexView :=
  match fuel with
  | 0 => []
  | S fuel' =>
      match get_adjacents model v mode_out part_of with
      | [] => []
      | parent :: _ => parent :: ancestors fuel' parent
      end
  end.

Definition depth_bound : nat := length (es model).

(** Modelled from the spec: [resolve_rel_name] is missing from the
    sources. The least common ancestor is the deepest vertex that is an
    ancestor of every given vertex. The spec leaves the derivation of the
    connection name to the collaborator; here it is the local names of the
    given vertices joined by a tilde. *)
Definition reference_resolve_rel_name (mvvs : list ModelVertexView)
  : ModelVertexView * string :=
  let common :=
    List.filter
      (fun a => forallb (fun v => bool_decide (a ∈ ancestors depth_bound v)) mvvs)
      (ancestors depth_bound (List.hd 0 mvvs)) in
  (List.hd (List.hd 0 mvvs) common, join "~" (map (mvv_ref model) mvvs)).

(** The part of the chain [v; parent; ...] that is strictly below [lca]. *)
Fixpoint below (lca : ModelVertexView) (chain : list ModelVertexView)
  : list ModelVertexView :=
  match chain with
  | [] => []
  | a :: chain' => if Nat.eqb a lca then [] else a :: below lca chain'
  end.

(** Modelled from the spec: [ModelVertexView.relative_mvv_path] is missing
    from the sources. The ordered sequence of vertices on the path from
    below the ancestor down to the descendant. *)
Definition reference_relative_mvv_path (lca v : ModelVertexView)
  : list ModelVertexView :=
  rev (below lca (v :: ancestors depth_bound v)).
End Reference.

#[export] Instance reference_ancestry : Ancestry :=
  {| resolve_rel_name := reference_resolve_rel_name;
     relative_mvv_path := reference_relative_mvv_path |}.

(** ** Example designs *)

Definition vertex_table (table : list Vertex) (i : nat) : Vertex :=
  nth i table (mkVertex file "" "" "" ANone).

Definition part (child parent : nat) : Edge := mkEdge child parent part_of.
Definition wire (a b : nat) : Edge := mkEdge a b connects_to.
Definition inst (a b : nat) : Edge := mkEdge a b instance_of.

(** The end-to-end design of the spec: module [M] with components [C1]
    (pin [p], signal [s]) and [C2] (pin [q]); [p] is wired to [s] and [q]
    to [p]. *)
Definition design_two_components : Model :=
  {| vs := vertex_table
       [ mkVertex module "M" "M" "" (ADict []);
         mkVertex component "C1" "M.C1" "M" (ADict []);
         mkVertex component "C2" "M.C2" "M" (ADict []);
         mkVertex pin "p" "M.C1.p" "M.C1" (ADict []);
         mkVertex signal "s" "M.C1.s" "M.C1" (ADict []);
         mkVertex pin "q" "M.C2.q" "M.C2" (ADict []) ];
     es := [ part 1 0; part 2 0; part 3 1; part 4 1; part 5 2;
             wire 3 4; wire 5 3 ];
     model_data := ∅ |}.

(** Module [M] with a pin [p] whose one connection goes to the signal [s]
    of [M]. *)
Definition design_pass_through : Model :=
  {| vs := vertex_table
       [ mkVertex module "M" "M" "" (ADict []);
         mkVertex pin "p" "M.p" "M" (ADict []);
         mkVertex signal "s" "M.s" "M" (ADict []) ];
     es := [ part 1 0; part 2 0; wire 1 2 ];
     model_data := {[ "M.s" := [("fields", ADict [("net", AStr "gnd")])] ]} |}.

(** Module [M] with an interface [I] that holds the pins [a] and [b],
    wired to each other. *)
Definition design_interface_wire : Model :=
  {| vs := vertex_table
       [ mkVertex module "M" "M" "" (ADict []);
         mkVertex interface "I" "M.I" "M" (ADict []);
         mkVertex pin "a" "M.I.a" "M.I" (ADict []);
         mkVertex pin "b" "M.I.b" "M.I" (ADict []) ];
     es := [ part 1 0; part 2 1; part 3 1; wire 2 3 ];
     model_data := ∅ |}.

(** Module [M] with nested interfaces [I1], [I2] and the pin [P] in [I2];
    a component [C] with pin [q] wired to [P]. *)
Definition design_nested_interfaces : Model :=
  {| vs := vertex_table
       [ mkVertex module "M" "M" "" (ADict []);
         mkVertex interface "I1" "M.I1" "M" (ADict []);
         mkVertex interface "I2" "M.I1.I2" "M.I1" (ADict []);
         mkVertex pin "P" "M.I1.I2.P" "M.I1.I2" (ADict []);
         mkVertex component "C" "M.C" "M" (ADict []);
         mkVertex pin "q" "M.C.q" "M.C" (ADict []) ];
     es := [ part 1 0; part 2 1; part 3 2; part 4 0; part 5 4; wire 5 3 ];
     model_data := ∅ |}.

(** Component [R] that is an instance of two definitions. *)
Definition design_two_definitions : Model :=
  {| vs := vertex_table
       [ mkVertex module "M" "M" "" (ADict []);
         mkVertex component "R" "M.R" "M" (ADict [("value", AInt 10)]);
         mkVertex component "Res" "Res" "" (ADict []);
         mkVertex component "Part" "Part" "" (ADict []) ];
     es := [ part 1 0; inst 1 2; inst 1 3; inst 0 3 ];
     model_data := ∅ |}.

(** Module [M] with a pin [r] and a component [C]; [C] holds the interface
    [I] with the pin [P], and [r] is wired to [P]. *)
Definition design_component_interface : Model :=
  {| vs := vertex_table
       [ mkVertex module "M" "M" "" (ADict []);
         mkVertex component "C" "M.C" "M" (ADict []);
         mkVertex interface "I" "M.C.I" "M.C" (ADict []);
         mkVertex pin "P" "M.C.I.P" "M.C.I" (ADict []);
         mkVertex pin "r" "M.r" "M" (ADict []) ];
     es := [ part 1 0; part 2 1; part 3 2; part 4 0; wire 4 3 ];
     model_data := ∅ |}.

(** ** Vocabulary of the statements *)

Section Vocabulary.
Variable model : Model.

Definition not_interface (v : ModelVertexView) : Prop :=
  mvv_type model v <> interface.

(** The test for a connects_to edge that touches a vertex, whichever its
    direction. *)
Definition touches (v : ModelVertexView) (e : Edge) : bool :=
  bool_decide (type e = connects_to)
  && (Nat.eqb (target e) v || Nat.eqb (source e) v).

(** The tests of [get_edges] for connects_to edges into and out of a
    vertex. *)
Definition inbound (v : ModelVertexView) (e : Edge) : bool :=
  bool_decide (type e = connects_to) && Nat.eqb (target e) v.

Definition outbound (v : ModelVertexView) (e : Edge) : bool :=
  bool_decide (type e = connects_to) && Nat.eqb (source e) v.

(** The connects_to edges of a vertex in both directions, each edge
    once. *)
Definition connections_of (v : ModelVertexView) : list Edge :=
  List.filter (touches v) (es model).

Definition other_endpoint (v : ModelVertexView) (e : Edge) : ModelVertexView :=
  if Nat.eqb (source e) v then target e else source e.

(** The elision test in the words of the spec: exactly one connects_to
    edge in total, whose other endpoint is a signal with the parent path
    of the pin. *)
Definition trivial_pass_through (v : ModelVertexView) : Prop :=
  exists e,
    connections_of v = [e]
    /\ mvv_type model (other_endpoint v e) = signal
    /\ mvv_parent_path model (other_endpoint v e) = mvv_parent_path model v.

(** What a result of [visit] adds to the pin list that [wander_interface]
    gathers. *)
Definition pins_of (r : Visited) : list Pin.t :=
  match r with
  | VNone => []
  | VPin p => [p]
  | VPins ps => ps
  | VBlock _ => []
  end.

(** The pin that [generic_visit_pin] makes of a vertex. *)
Definition pin_of_vertex (v : ModelVertexView) : Pin.t :=
  Pin.mk (mvv_ref model v)
         (dict_get (default [] (model_data model !! mvv_path model v))
                   "fields" (ADict [])).

(** The part_of-children of a vertex that [wander_interface] visits. *)
Definition pin_children (v : ModelVertexView) : list ModelVertexView :=
  List.filter (fun a => bool_decide (mvv_type model a ∈ [pin; signal; interface]))
              (get_adjacents model v mode_in part_of).

Definition no_block (r : Visited) : Prop :=
  match r with
  | VBlock _ => False
  | _ => True
  end.

(** A vertex that becomes a pin: a signal, or a pin that is not elided. *)
Definition materialized (p : ModelVertexView) : Prop :=
  mvv_type model p = signal
  \/ (mvv_type model p = pin /\ ~ trivial_pass_through p).

(** Nested interfaces, outermost first, each holding the next one alone,
    the innermost holding [p] alone. *)
Fixpoint interface_chain (interfaces : list ModelVertexView) (p : ModelVertexView)
  : Prop :=
  match interfaces with
  | [] => materialized p
  | i :: inner =>
      mvv_type model i = interface
      /\ pin_children i = [List.hd p inner]
      /\ interface_chain inner p
  end.

(** The message of the warning about a block with several definitions. *)
Definition instance_of_warning (v : ModelVertexView) : string :=
  "Block " +:+ mvv_path model v +:+ " is an instance_of multiple things".
End Vocabulary.

(** A block and the blocks below it. *)
Fixpoint subblocks (b : Block.t) : list Block.t :=
  match b with
  | Block.mk _ _ _ blocks _ _ _ _ _ => b :: concat (map subblocks blocks)
  end.

(** The blocks in a result of [visit]. *)
Definition visited_blocks (r : Visited) : list Block.t :=
  match r with
  | VBlock b => subblocks b
  | _ => []
  end.

(** A block below the root is made of a module or a component. *)
Definition block_kind (model : Model) (b : Block.t) : Prop :=
  mvv_type model (Block.source b) = module
  \/ mvv_type model (Block.source b) = component.

(** [descendant model a v]: [v] is [a] or is reached from [a] along
    inbound part_of edges. *)
Inductive descendant (model : Model) (a : ModelVertexView) : ModelVertexView -> Prop :=
| descendant_self : descendant model a a
| descendant_child (v c : ModelVertexView) :
    descendant model a v ->
    In c (get_adjacents model v mode_in part_of) ->
    descendant model a c.

(** What a part of the traversal that starts in [bob], ends in [bob'] and
    makes the blocks [bs] under the vertex [v] leaves behind: the new block
    objects have fresh and distinct identities and no links, the directory
    gained entries for new blocks only, each under the path of the vertex
    the block was made of, and the registry lost nothing and gained
    descendants of [v] only. *)
Record traversal_post (model : Model) (v : ModelVertexView)
       (bob : BobState) (bs : list Block.t) (bob' : BobState) : Prop :=
  mk_traversal_post {
    post_mono : next_oid bob <= next_oid bob';
    post_range :
      Forall (fun b => next_oid bob <= Block.oid b < next_oid bob') bs;
    post_nodup : List.NoDup (map Block.oid bs);
    post_links : Forall (fun b => Block.links b = []) bs;
    post_dir :
      forall p o,
        block_directory_by_path bob' !! p = Some o ->
        block_directory_by_path bob !! p = Some o
        \/ exists b, In b bs /\ Block.oid b = o
                     /\ mvv_path model (Block.source b) = p;
    post_reg :
      forall x,
        In x (all_verticies bob') ->
        In x (all_verticies bob) \/ descendant model v x;
    post_kept :
      forall x, In x (all_verticies bob) -> In x (all_verticies bob')
  }.

Section LinkVocabulary.
Context {ancestry : Ancestry}.
Variable model : Model.

(** A connection is eligible when both of its endpoints are registered. *)
Definition eligible (all_indicies : gset nat) (c : Edge) : bool :=
  bool_decide (source c ∈ all_indicies) && bool_decide (target c ∈ all_indicies).

(** The least common ancestor of the endpoints of a connection. *)
Definition lca_of (c : Edge) : ModelVertexView :=
  fst (resolve_rel_name model [source c; target c]).

(** The link of a connection in the words of the spec: the connection name
    from the resolution, and the two relative paths from the least common
    ancestor, rendered. *)
Definition scoped_link (c : Edge) : Link.t :=
  Link.mk (snd (resolve_rel_name model [source c; target c]))
          (_mod_path model (relative_mvv_path model (lca_of c) (source c)))
          (_mod_path model (relative_mvv_path model (lca_of c) (target c))).

(** The block object, if any, that the directory holds under the path of
    the least common ancestor. *)
Definition scope_of (bob : BobState) (c : Edge) : option nat :=
  block_directory_by_path bob !! mvv_path model (lca_of c).

Definition scoped_to (bob : BobState) (oid : nat) (c : Edge) : bool :=
  bool_decide (scope_of bob c = Some oid).
End LinkVocabulary.

(** ** Vocabulary of the further properties *)

(** The builder after each of its writes. *)
Definition registered (vertex : ModelVertexView) (bob : BobState) : BobState :=
  {| all_verticies := all_verticies bob ++ [vertex];
     block_stack := block_stack bob;
     block_directory_by_path := block_directory_by_path bob;
     pin_directory_by_vid := pin_directory_by_vid bob;
     next_oid := next_oid bob;
     log := log bob |}.

Definition pinned (vid : nat) (p : Pin.t) (bob : BobState) : BobState :=
  {| all_verticies := all_verticies bob;
     block_stack := block_stack bob;
     block_directory_by_path := block_directory_by_path bob;
     pin_directory_by_vid := <[vid := p]> (pin_directory_by_vid bob);
     next_oid := next_oid bob;
     log := log bob |}.

Definition warned (msg : string) (bob : BobState) : BobState :=
  {| all_verticies := all_verticies bob;
     block_stack := block_stack bob;
     block_directory_by_path := block_directory_by_path bob;
     pin_directory_by_vid := pin_directory_by_vid bob;
     next_oid := next_oid bob;
     log := log bob ++ [msg] |}.

(** The builder inside [block_context], after the vertex is registered. *)
Definition entered (vertex : ModelVertexView) (bob : BobState) : BobState :=
  {| all_verticies := all_verticies bob ++ [vertex];
     block_stack := block_stack bob ++ [vertex];
     block_directory_by_path := block_directory_by_path bob;
     pin_directory_by_vid := pin_directory_by_vid bob;
     next_oid := next_oid bob;
     log := log bob |}.

(** The builder once the block is made, indexed under [path] and
    [block_context] is left. *)
Definition left_block (path : string) (bob : BobState) : BobState :=
  {| all_verticies := all_verticies bob;
     block_stack := removelast (block_stack bob);
     block_directory_by_path := <[path := next_oid bob]> (block_directory_by_path bob);
     pin_directory_by_vid := pin_directory_by_vid bob;
     next_oid := S (next_oid bob);
     log := log bob |}.

(** [runs f xs bob ys bob']: calling [f] on the elements of [xs] in turn,
    from the builder [bob], returns [ys] and leaves the builder [bob']. *)
Inductive runs {A B : Type} (f : A -> M B)
  : list A -> BobState -> list B -> BobState -> Prop :=
| runs_nil (bob : BobState) : runs f [] bob [] bob
| runs_cons (x : A) (xs : list A) (bob : BobState) (y : B) (bob1 : BobState)
            (ys : list B) (bob2 : BobState) :
    f x bob = Ok (y, bob1) ->
    runs f xs bob1 ys bob2 ->
    runs f (x :: xs) bob (y :: ys) bob2.

Section FurtherVocabulary.
Variable model : Model.

(** The part_of-children of a vertex that the generic block rule visits
    for its child blocks. *)
Definition block_children (v : ModelVertexView) : list ModelVertexView :=
  List.filter (fun a => bool_decide (mvv_type model a ∈ [component; module]))
              (get_adjacents model v mode_in part_of).

(** The test of [visit_pin], as a boolean. *)
Definition elides (v : ModelVertexView) : bool :=
  let connections_in := get_edges model v mode_in connects_to in
  let connections_out := get_edges model v mode_out connects_to in
  Nat.eqb (length connections_in + length connections_out) 1
  && match sole_target connections_in connections_out with
     | Some target =>
         bool_decide (mvv_type model target = signal)
         && String.eqb (mvv_parent_path model target) (mvv_parent_path model v)
     | None => false
     end.

(** The definition that [check_instance_of] finds, and the builder after
    it. *)
Definition definition_of (v : ModelVertexView) : option string :=
  option_map (mvv_path model) (head (get_adjacents model v mode_out instance_of)).

Definition checked (v : ModelVertexView) (bob : BobState) : BobState :=
  if Nat.ltb 1 (length (get_adjacents model v mode_out instance_of))
  then warned (instance_of_warning model v) bob
  else bob.

(** The vertices that the visit of a vertex goes on to visit. *)
Definition visited_children (v : ModelVertexView) : list ModelVertexView :=
  match mvv_type model v with
  | component | module => block_children v ++ pin_children model v
  | interface => pin_children model v
  | _ => []
  end.

(** A block carries the local name, the type tag and the field mapping of
    the vertex it is made of, and its child blocks are made of the module
    and component children of that vertex, in the order of the edges. *)
Definition faithful (b : Block.t) : Prop :=
  Block.name b = mvv_ref model (Block.source b)
  /\ Block.type b = vertex_type_name (mvv_type model (Block.source b))
  /\ Block.fields b = mvv_data model (Block.source b)
  /\ map Block.source (Block.blocks b) = block_children (Block.source b).
End FurtherVocabulary.

(** A block without its two internal attributes, throughout the tree. *)
Fixpoint erase (b : Block.t) : Block.t :=
  match b with
  | Block.mk name type fields blocks pins links inst _ _ =>
      Block.mk name type fields (map erase blocks) pins links inst 0 0
  end.

(** All the links of a tree. *)
Definition tree_links (b : Block.t) : list Link.t :=
  concat (map Block.links (subblocks b)).

(** ** The view *)


Section View.
Context {ancestry : Ancestry}.
(** [ModelVertexView.from_path], which resolves the root vertex, is not in
    the sources: the view is taken over any resolution, [None] where the
    resolution finds no vertex under the path and raises. *)
Variable from_path : Model -> string -> option ModelVertexView.

End View.

(** ** Vocabulary of the traversal as a whole *)

(** A visit that returned a block. *)
Definition is_block (r : Visited) : Prop := exists b, r = VBlock b.

(** A returned block is made of the vertex that was visited. *)
Definition made_of (v : ModelVertexView) (r : Visited) : Prop :=
  forall b, r = VBlock b -> Block.source b = v.

(** Every key of the block directory is still a key of it later. *)
Definition keys_kept (bob bob' : BobState) : Prop :=
  forall p,
    is_Some (block_directory_by_path bob !! p) ->
    is_Some (block_directory_by_path bob' !! p).

(** The directory has an entry under the path of the vertex of a block. *)
Definition indexed (model : Model) (bob : BobState) (b : Block.t) : Prop :=
  is_Some (block_directory_by_path bob !! mvv_path model (Block.source b)).

(** Every vertex of the registry was there before, or is a pin or a
    signal, or is the vertex of one of the given blocks. *)
Definition accounted (model : Model) (bob : BobState) (bs : list Block.t)
           (bob' : BobState) : Prop :=
  forall x,
    In x (all_verticies bob') ->
    In x (all_verticies bob)
    \/ mvv_type model x = pin
    \/ mvv_type model x = signal
    \/ exists b, In b bs /\ Block.source b = x.

(** How many blocks of a list have the given identity. *)
Definition hits (bs : list Block.t) (key : option nat) : nat :=
  list_sum (map (fun b => if bool_decide (key = Some (Block.oid b)) then 1 else 0) bs).

(** The pins under a vertex as the graph gives them: the pins and signals
    among its children in the order of the edges, without the elided pins,
    and for each interface among them its own pins with its name before
    theirs; [depth] bounds the nesting of the interfaces. *)
Fixpoint flat_pins (model : Model) (depth : nat) (v : ModelVertexView)
  : list Pin.t :=
  concat
    (map (fun c =>
            match mvv_type model c with
            | pin => if elides model c then [] else [pin_of_vertex model c]
            | signal => [pin_of_vertex model c]
            | interface =>
                match depth with
                | S depth' => map (prefix_pin model c) (flat_pins model depth' c)
                | 0 => []
                end
            | _ => []
            end)
         (pin_children model v)).

(** The blocks of a tree in the order in which they are finished. *)
Fixpoint finished (b : Block.t) : list Block.t :=
  match b with
  | Block.mk _ _ _ blocks _ _ _ _ _ => concat (map finished blocks) ++ [b]
  end.

Definition finished_blocks (r : Visited) : list Block.t :=
  match r with
  | VBlock b => finished b
  | _ => []
  end.

(** The warnings about the blocks of a list that are made of a vertex with
    several definitions. *)
Definition warnings (model : Model) (bs : list Block.t) : list string :=
  map (fun b => instance_of_warning model (Block.source b))
      (List.filter
         (fun b => Nat.ltb 1 (length (get_adjacents model (Block.source b)
                                                    mode_out instance_of)))
         bs).

(** Nested interfaces, outermost first, each holding the next one among
    the pins, signals and interfaces that are parts of it, the innermost
    holding [p] among its own; [p] becomes a pin. *)
Fixpoint interface_route (model : Model) (interfaces : list ModelVertexView)
         (p : ModelVertexView) : Prop :=
  match interfaces with
  | [] => materialized model p
  | i :: inner =>
      mvv_type model i = interface
      /\ In (List.hd p inner) (pin_children model i)
      /\ interface_route model inner p
  end.


(** The height of each vertex of [design_two_components] above the
    leaves. *)
Definition rank_two_components (v : ModelVertexView) : nat :=
  match v with
  | 0 => 2
  | 1 | 2 => 1
  | _ => 0
  end.

(** Module [M] with the components [A] and [B], each a part of the
    other. *)
Definition design_cycle : Model :=
  {| vs := vertex_table
       [ mkVertex module "M" "M" "" (ADict []);
         mkVertex component "A" "M.A" "M" (ADict []);
         mkVertex component "B" "M.A.B" "M.A" (ADict []) ];
     es := [ part 1 0; part 2 1; part 1 2 ];
     model_data := ∅ |}.

(** Module [M] with a pin [r] and a component [C]; [C] holds the interface
    [I] with the pins [a] and [b] and the interface [J], which holds the
    pins [c] and [d]; [r] is wired to [d]. *)
Definition design_wide_interface : Model :=
  {| vs := vertex_table
       [ mkVertex module "M" "M" "" (ADict []);
         mkVertex component "C" "M.C" "M" (ADict []);
         mkVertex interface "I" "M.C.I" "M.C" (ADict []);
         mkVertex pin "a" "M.C.I.a" "M.C.I" (ADict []);
         mkVertex interface "J" "M.C.I.J" "M.C.I" (ADict []);
         mkVertex pin "b" "M.C.I.b" "M.C.I" (ADict []);
         mkVertex pin "c" "M.C.I.J.c" "M.C.I.J" (ADict []);
         mkVertex pin "d" "M.C.I.J.d" "M.C.I.J" (ADict []);
         mkVertex pin "r" "M.r" "M" (ADict []) ];
     es := [ part 1 0; part 2 1; part 3 2; part 4 2; part 5 2; part 6 4;
             part 7 4; part 8 0; wire 8 7 ];
     model_data := ∅ |}.

(** * Properties *)

(** ** Runs of the example designs *)

(** The end-to-end example: [p] has two connections and stays, the link of
    [q] and [p] is scoped to [M], that of [p] and [s] to [C1]. *)
Example build_two_components :
  exists root c1 c2,
    build design_two_components 10 0 = Ok root
    /\ Block.blocks root = [c1; c2]
    /\ map Pin.name (Block.pins c1) = ["p"; "s"]
    /\ map Pin.name (Block.pins c2) = ["q"]
    /\ Block.links root = [Link.mk "q~p" "C2.q" "C1.p"]
    /\ Block.links c1 = [Link.mk "p~s" "p" "s"]
    /\ Block.links c2 = [].
Proof.
  eexists. eexists. eexists. split; [vm_compute; reflexivity|].
  repeat split.
Qed.

Example build_component_interface :
  exists root,
    build design_component_interface 10 0 = Ok root
    /\ Block.links root = [Link.mk "r~P" "r" "C.I-P"]
    /\ map (fun b => map Pin.name (Block.pins b)) (Block.blocks root) = [["I-P"]].
Proof.
  eexists. split; [vm_compute; reflexivity|]. repeat split.
Qed.

Example build_needs_fuel :
  build design_two_components 0 0 = Raise RecursionError.
Proof. vm_compute. reflexivity. Qed.

Example serialize_pass_through :
  match build design_pass_through 10 0 with
  | Ok root => Block.to_dict root
  | Raise _ => []
  end
  = [("name", AStr "M"); ("type", AStr "module"); ("fields", ADict []);
     ("blocks", AList []);
     ("pins", AList [ADict [("name", AStr "s");
                            ("fields", ADict [("net", AStr "gnd")])]]);
     ("links", AList [ADict [("name", AStr "p~s"); ("source", AStr "p");
                             ("target", AStr "s")]]);
     ("instance_of", AStr "M")].
Proof. vm_compute. reflexivity. Qed.

(** The component [R] has two definitions: the first one is used and the
    warning is logged; the root has one and gets its own path. *)
Example build_two_definitions :
  exists root r bob,
    build_with_bob design_two_definitions 10 0 = Ok (root, bob)
    /\ Block.blocks root = [r]
    /\ Block.instance_of r = Some "Res"
    /\ Block.instance_of root = Some "M"
    /\ log bob = ["Block M.R is an instance_of multiple things"].
Proof.
  eexists. eexists. eexists. split; [vm_compute; reflexivity|].
  repeat split.
Qed.

(** ** Rendering of relative paths *)

Section ModPath.
Variable model : Model.

Lemma _mod_path_from_plain (mvv_path rest : list ModelVertexView) (i : nat) :
  Forall (not_interface model) rest ->
  _mod_path_from model mvv_path i rest = join "." (map (mvv_ref model) mvv_path).
Proof.
  intros Hrest. revert i.
  induction Hrest as [|v rest Hv _ IH]; intros i; simpl.
  - reflexivity.
  - rewrite bool_decide_eq_false_2 by exact Hv. apply IH.
Qed.

Lemma _mod_path_from_split (seen pre post : list ModelVertexView) (mvv : ModelVertexView) :
  Forall (not_interface model) pre ->
  mvv_type model mvv = interface ->
  _mod_path_from model (seen ++ pre ++ mvv :: post) (length seen) (pre ++ mvv :: post)
  = join "." (map (mvv_ref model) (seen ++ pre))
    +:+ "." +:+ join "-" (map (mvv_ref model) (mvv :: post)).
Proof.
  intros Hpre Hmvv. revert seen.
  induction Hpre as [|v pre Hv _ IH]; intros seen.
  - cbn [app _mod_path_from].
    rewrite bool_decide_eq_true_2 by exact Hmvv.
    rewrite firstn_app, Nat.sub_diag, firstn_all. cbn [firstn].
    rewrite skipn_app, Nat.sub_diag, skipn_all. cbn [skipn app].
    reflexivity.
  - cbn [app _mod_path_from].
    rewrite bool_decide_eq_false_2 by exact Hv.
    specialize (IH (seen ++ [v])).
    rewrite length_app, Nat.add_1_r in IH. cbn [length] in IH.
    rewrite <- !app_assoc in IH. cbn [app] in IH.
    exact IH.
Qed.

(** C5. The rendering of a relative path: at the first interface-typed
    vertex the segments before it are joined by dots, it and the segments
    after it by hyphens, and one dot joins the two halves; a path without
    an interface-typed vertex is joined by dots throughout. *)
Theorem mod_path_dual_separator (mvv_path : list ModelVertexView) :
  (forall pre mvv post,
      mvv_path = pre ++ mvv :: post ->
      Forall (not_interface model) pre ->
      mvv_type model mvv = interface ->
      _mod_path model mvv_path
      = join "." (map (mvv_ref model) pre)
        +:+ "." +:+ join "-" (map (mvv_ref model) (mvv :: post)))
  /\ (Forall (not_interface model) mvv_path ->
      _mod_path model mvv_path = join "." (map (mvv_ref model) mvv_path)).
Proof.
  split.
  - intros pre mvv post -> Hpre Hmvv.
    exact (_mod_path_from_split [] pre post mvv Hpre Hmvv).
  - intros Hplain. now apply _mod_path_from_plain.
Qed.
End ModPath.

Lemma mod_path_dual_separator_witness :
  _mod_path design_component_interface [1; 2; 3] = "C.I-P"
  /\ _mod_path design_two_components [1; 3] = "C1.p".
Proof.
  split.
  - apply (proj1 (mod_path_dual_separator design_component_interface [1; 2; 3])
                 [1] 2 [3]).
    + reflexivity.
    + repeat constructor. unfold not_interface. vm_compute. discriminate.
    + reflexivity.
  - apply (proj2 (mod_path_dual_separator design_two_components [1; 3])).
    repeat constructor; unfold not_interface; vm_compute; discriminate.
Defined.

(** ** Pin elision *)

Section Elision.
Variable model : Model.
Variable v : ModelVertexView.

Lemma touches_in_out (e : Edge) : touches v e = inbound v e || outbound v e.
Proof.
  unfold touches, inbound, outbound.
  destruct (bool_decide (type e = connects_to)), (target e =? v)%nat; reflexivity.
Qed.

(** Inbound plus outbound counts every touching edge once and every
    self-loop once more. *)
Lemma count_in_out (l : list Edge) :
  length (List.filter (inbound v) l) + length (List.filter (outbound v) l)
  = length (List.filter (touches v) l)
    + length (List.filter (fun e => inbound v e && outbound v e) l).
Proof.
  induction l as [|e l IH]; [reflexivity|].
  cbn [List.filter]. rewrite touches_in_out.
  destruct (inbound v e), (outbound v e); cbn [orb andb length]; lia.
Qed.

Lemma filter_nil_all_false {A} (f : A -> bool) (l : list A) :
  List.filter f l = [] -> forall x, In x l -> f x = false.
Proof.
  intros Hnil x Hx. destruct (f x) eqn:Hfx; [|reflexivity].
  assert (Hin : In x (List.filter f l)) by (apply filter_In; auto).
  rewrite Hnil in Hin. destruct Hin.
Qed.

Lemma filter_singleton_holds {A} (f : A -> bool) (l : list A) (x : A) :
  List.filter f l = [x] -> f x = true.
Proof.
  intros Hone.
  assert (Hin : In x (List.filter f l)) by (rewrite Hone; left; reflexivity).
  apply filter_In in Hin. tauto.
Qed.

(** With one connection in total, [target] is bound to the other
    endpoint of the one edge that touches the pin. *)
Lemma sole_target_other_endpoint (l : list Edge) :
  length (List.filter (inbound v) l) + length (List.filter (outbound v) l) = 1 ->
  exists e,
    List.filter (touches v) l = [e]
    /\ sole_target (List.filter (inbound v) l) (List.filter (outbound v) l)
       = Some (other_endpoint v e).
Proof.
  intros Hone.
  destruct (List.filter (inbound v) l) as [|a [|? ?]] eqn:Hin;
    destruct (List.filter (outbound v) l) as [|b [|? ?]] eqn:Hout;
    cbn [length] in Hone; try lia.
  - (* the one edge goes out of the pin *)
    exists b. split.
    + rewrite <- Hout. apply filter_ext_in. intros e He.
      rewrite touches_in_out.
      now rewrite (filter_nil_all_false (inbound v) l Hin e He).
    + unfold sole_target. cbn.
      apply filter_singleton_holds in Hout. unfold outbound in Hout.
      apply andb_prop in Hout as [_ Hsrc].
      unfold other_endpoint. now rewrite Hsrc.
  - (* the one edge comes into the pin *)
    exists a. split.
    + rewrite <- Hin. apply filter_ext_in. intros e He.
      rewrite touches_in_out.
      rewrite (filter_nil_all_false (outbound v) l Hout e He).
      now rewrite orb_false_r.
    + unfold sole_target. cbn.
      assert (Hsrc : outbound v a = false).
      { apply (filter_nil_all_false (outbound v) l Hout).
        assert (Ha : In a (List.filter (inbound v) l)) by (rewrite Hin; now left).
        apply filter_In in Ha. tauto. }
      apply filter_singleton_holds in Hin. unfold inbound in Hin.
      apply andb_prop in Hin as [Hty _].
      unfold outbound in Hsrc. rewrite Hty in Hsrc. cbn in Hsrc.
      unfold other_endpoint. now rewrite Hsrc.
Qed.

(** One touching edge that is not a self-loop is one connection in
    total. *)
Lemma one_touching_edge (l : list Edge) (e : Edge) :
  List.filter (touches v) l = [e] ->
  other_endpoint v e <> v ->
  length (List.filter (inbound v) l) + length (List.filter (outbound v) l) = 1.
Proof.
  intros Hone Hloop.
  rewrite count_in_out, Hone. cbn [length].
  replace (List.filter (fun e0 => inbound v e0 && outbound v e0) l) with (@nil Edge);
    [reflexivity|].
  symmetry.
  destruct (List.filter (fun e0 => inbound v e0 && outbound v e0) l) as [|x rest] eqn:Hboth;
    [reflexivity|exfalso].
  assert (Hx : In x (List.filter (fun e0 => inbound v e0 && outbound v e0) l))
    by (rewrite Hboth; now left).
  apply filter_In in Hx as [Hxl Hx].
  apply andb_prop in Hx as [Hxin Hxout].
  assert (Hxe : In x (List.filter (touches v) l)).
  { apply filter_In. split; [exact Hxl|].
    rewrite touches_in_out, Hxin. reflexivity. }
  rewrite Hone in Hxe. destruct Hxe as [<-|[]].
  unfold inbound in Hxin. unfold outbound in Hxout.
  apply andb_prop in Hxin as [_ Htgt]. apply andb_prop in Hxout as [_ Hsrc].
  apply Hloop. unfold other_endpoint. rewrite Hsrc.
  now apply Nat.eqb_eq.
Qed.

Lemma visit_pin_registers (bob : BobState) (r : option Pin.t) (bob' : BobState) :
  visit_pin model v bob = Ok (r, bob') ->
  all_verticies bob' = all_verticies bob ++ [v].
Proof.
  unfold visit_pin, bind, record_vertex, modify, ret, raise, generic_visit_pin,
    set_pin_directory.
  intros Hrun.
  repeat match type of Hrun with
         | context [if ?c then _ else _] => destruct c
         | context [match ?c with Some _ => _ | None => _ end] => destruct c
         end;
    cbn in Hrun; inversion Hrun; subst; reflexivity.
Qed.

(** The two ways a visit of a pin ends. *)
Lemma visit_pin_cases (bob : BobState) :
  mvv_type model v = pin ->
  (trivial_pass_through model v
   /\ exists bob', visit_pin model v bob = Ok (None, bob'))
  \/ (~ trivial_pass_through model v
      /\ exists bob', visit_pin model v bob = Ok (Some (pin_of_vertex model v), bob')).
Proof.
  intros Hpin.
  unfold visit_pin, bind, record_vertex, modify, ret, raise, generic_visit_pin,
    set_pin_directory, pin_of_vertex.
  change (get_edges model v mode_in connects_to)
    with (List.filter (inbound v) (es model)).
  change (get_edges model v mode_out connects_to)
    with (List.filter (outbound v) (es model)).
  destruct (Nat.eqb (length (List.filter (inbound v) (es model))
                     + length (List.filter (outbound v) (es model))) 1) eqn:Hlen.
  - apply Nat.eqb_eq in Hlen.
    destruct (sole_target_other_endpoint (es model) Hlen) as (e & Htouch & ->).
    destruct (bool_decide (mvv_type model (other_endpoint v e) = signal)) eqn:Hsig.
    + apply bool_decide_eq_true_1 in Hsig.
      destruct (String.eqb (mvv_parent_path model (other_endpoint v e))
                           (mvv_parent_path model v)) eqn:Hpar.
      * left. split; [|eauto].
        exists e. apply String.eqb_eq in Hpar. auto.
      * right. split; [|eauto].
        intros (e' & Htouch' & _ & Hpar').
        unfold connections_of in Htouch'. rewrite Htouch in Htouch'.
        injection Htouch' as <-.
        apply String.eqb_neq in Hpar. contradiction.
    + apply bool_decide_eq_false_1 in Hsig.
      right. split; [|eauto].
      intros (e' & Htouch' & Hsig' & _).
      unfold connections_of in Htouch'. rewrite Htouch in Htouch'.
      injection Htouch' as <-. contradiction.
  - right. split; [|eauto].
    intros (e & Htouch & Hsig & _).
    apply Nat.eqb_neq in Hlen. apply Hlen.
    apply (one_touching_edge (es model) e Htouch).
    intros Hloop. rewrite Hloop, Hpin in Hsig. discriminate.
Qed.

(** C1. A pin-typed vertex is elided exactly when it has one connects_to
    edge in total, the other endpoint of that edge is a signal and that
    signal has the parent path of the pin; in every other case the pin is
    materialized. Either way the visit returns, and what it returns adds
    nothing, or the one pin, to the pin list of the enclosing block. *)
Theorem visit_pin_elision (bob : BobState) :
  mvv_type model v = pin ->
  exists r bob',
    visit_pin model v bob = Ok (r, bob')
    /\ (r = None <-> trivial_pass_through model v)
    /\ (~ trivial_pass_through model v -> r = Some (pin_of_vertex model v))
    /\ (forall visit,
          visit_by_type model visit v bob
          = Ok (match r with Some p => VPin p | None => VNone end, bob'))
    /\ (pins_of (match r with Some p => VPin p | None => VNone end) = []
        <-> trivial_pass_through model v).
Proof.
  intros Hpin.
  destruct (visit_pin_cases bob Hpin)
    as [[Htriv [bob' Hrun]]|[Hntriv [bob' Hrun]]].
  - exists None, bob'. repeat split; auto; try contradiction.
    intros visit. unfold visit_by_type. rewrite Hpin.
    unfold bind. rewrite Hrun. reflexivity.
  - exists (Some (pin_of_vertex model v)), bob'. repeat split; auto; try discriminate.
    + intros Htriv. contradiction.
    + intros visit. unfold visit_by_type. rewrite Hpin.
      unfold bind. rewrite Hrun. reflexivity.
    + intros Htriv. contradiction.
Qed.
End Elision.

Lemma design_pass_through_trivial : trivial_pass_through design_pass_through 1.
Proof. exists (wire 1 2). repeat split. Qed.

Lemma visit_pin_elision_witness :
  mvv_type design_pass_through 1 = pin
  /\ exists r bob',
      visit_pin design_pass_through 1 Bob_init = Ok (r, bob')
      /\ (r = None <-> trivial_pass_through design_pass_through 1).
Proof.
  split; [reflexivity|].
  destruct (visit_pin_elision design_pass_through 1 Bob_init eq_refl)
    as (r & bob' & Hrun & Hiff & _).
  exists r, bob'. split; [exact Hrun | exact Hiff].
Defined.

(** ** Interface flattening *)

Section Flattening.
Variable model : Model.

Lemma splice_pins_pins_of (visited : list Visited) (acc : list Pin.t) :
  Forall no_block visited ->
  splice_pins
    (List.filter (fun x => match x with VNone => false | _ => true end) visited) acc
  = Ok (acc ++ concat (map pins_of visited)).
Proof.
  intros Hnb. revert acc.
  induction Hnb as [|r visited Hr _ IH]; intros acc; cbn.
  - now rewrite app_nil_r.
  - destruct r as [|p|b|ps]; cbn; try (destruct Hr); rewrite ?IH, <- ?app_assoc;
      reflexivity.
Qed.

Lemma wander_pin_children (visit : ModelVertexView -> M Visited)
      (vertex : ModelVertexView) :
  wander model visit vertex mode_in part_of [pin; signal; interface]
  = mapM visit (pin_children model vertex).
Proof. reflexivity. Qed.

Lemma wander_interface_pins_of (visit : ModelVertexView -> M Visited)
      (vertex : ModelVertexView) (bob : BobState)
      (visited : list Visited) (bob' : BobState) :
  mapM visit (pin_children model vertex) bob = Ok (visited, bob') ->
  Forall no_block visited ->
  wander_interface model visit vertex bob = Ok (concat (map pins_of visited), bob').
Proof.
  intros Hrun Hnb. unfold wander_interface, bind, lift.
  rewrite wander_pin_children, Hrun, (splice_pins_pins_of _ [] Hnb).
  reflexivity.
Qed.

Lemma visit_signal_run (vertex : ModelVertexView) (bob : BobState) :
  exists bob', visit_signal model vertex bob = Ok (pin_of_vertex model vertex, bob').
Proof. unfold visit_signal, bind, record_vertex, modify, generic_visit_pin. cbn. eauto. Qed.

(** No visit of a pin, a signal or an interface returns a block. *)
Lemma visit_no_block (fuel : nat) (vertex : ModelVertexView) (bob : BobState)
      (r : Visited) (bob' : BobState) :
  mvv_type model vertex ∈ [pin; signal; interface] ->
  visit model fuel vertex bob = Ok (r, bob') ->
  no_block r.
Proof.
  intros Hty Hrun. destruct fuel as [|fuel]; [discriminate|].
  cbn [visit] in Hrun. unfold visit_by_type, bind in Hrun.
  apply (bool_decide_eq_true_2 _) in Hty.
  destruct (mvv_type model vertex); try (vm_compute in Hty; discriminate Hty).
  - destruct (visit_interface model (visit model fuel) vertex bob) as [[? ?]|?];
      inversion Hrun; exact I.
  - destruct (visit_pin model vertex bob) as [[[?|] ?]|?]; inversion Hrun; exact I.
  - destruct (visit_signal model vertex bob) as [[? ?]|?]; inversion Hrun; exact I.
Qed.

Lemma mapM_Forall {A B} (f : A -> M B) (P : A -> Prop) (Q : B -> Prop)
      (xs : list A) :
  (forall x bob y bob', P x -> f x bob = Ok (y, bob') -> Q y) ->
  Forall P xs ->
  forall bob ys bob', mapM f xs bob = Ok (ys, bob') -> Forall Q ys.
Proof.
  intros Hf HP. induction HP as [|x xs Hx _ IH]; intros bob ys bob' Hrun; cbn in Hrun.
  - inversion Hrun. constructor.
  - unfold bind in Hrun.
    destruct (f x bob) as [[y bob1]|] eqn:Hy; [|discriminate].
    destruct (mapM f xs bob1) as [[ys' bob2]|] eqn:Hys; [|discriminate].
    inversion Hrun; subst. constructor; eauto.
Qed.

Lemma pin_children_types (vertex : ModelVertexView) :
  Forall (fun a => mvv_type model a ∈ [pin; signal; interface])
         (pin_children model vertex).
Proof.
  apply List.Forall_forall. intros a Ha. apply filter_In in Ha as [_ Ha].
  now apply bool_decide_eq_true_1 in Ha.
Qed.

(** What [wander_interface] returns is what the children contribute, in
    their order. *)
Lemma wander_interface_concat (fuel : nat) (vertex : ModelVertexView) (bob : BobState)
      (visited : list Visited) (bob' : BobState) :
  wander model (visit model fuel) vertex mode_in part_of [pin; signal; interface] bob
  = Ok (visited, bob') ->
  wander_interface model (visit model fuel) vertex bob
  = Ok (concat (map pins_of visited), bob').
Proof.
  rewrite wander_pin_children. intros Hrun.
  apply wander_interface_pins_of; [exact Hrun|].
  eapply (mapM_Forall (visit model fuel)); [|apply pin_children_types|exact Hrun].
  intros x b y b' Hx Hy. exact (visit_no_block fuel x b y b' Hx Hy).
Qed.

Lemma join_cons (sep x : string) (xs : list string) :
  xs <> [] -> join sep (x :: xs) = x +:+ sep +:+ join sep xs.
Proof. destruct xs; [congruence|reflexivity]. Qed.

Lemma visit_materialized (fuel : nat) (p : ModelVertexView) (bob : BobState) :
  materialized model p ->
  exists bob', visit model (S fuel) p bob = Ok (VPin (pin_of_vertex model p), bob').
Proof.
  intros [Hsig|[Hpin Hkeep]]; cbn [visit]; unfold visit_by_type, bind.
  - rewrite Hsig. destruct (visit_signal_run p bob) as [bob' ->]. eauto.
  - rewrite Hpin.
    destruct (visit_pin_cases model p bob Hpin) as [[Htriv _]|[_ [bob' ->]]];
      [contradiction|eauto].
Qed.

(** The visit of the outermost vertex of a chain of nested interfaces. *)
Lemma visit_interface_chain (interfaces : list ModelVertexView) (p : ModelVertexView) :
  interface_chain model interfaces p ->
  forall fuel bob,
    length interfaces < fuel ->
    exists r bob',
      visit model fuel (List.hd p interfaces) bob = Ok (r, bob')
      /\ no_block r
      /\ pins_of r
         = [Pin.mk (join "-" (map (mvv_ref model) (interfaces ++ [p])))
                   (Pin.fields (pin_of_vertex model p))]
      /\ (interfaces <> [] -> exists ps, r = VPins ps).
Proof.
  induction interfaces as [|i inner IH]; intros Hchain fuel bob Hfuel.
  - destruct fuel as [|fuel]; [cbn in Hfuel; lia|].
    destruct (visit_materialized fuel p bob Hchain) as [bob' Hrun].
    exists (VPin (pin_of_vertex model p)), bob'. cbn [List.hd].
    repeat split; [exact Hrun | congruence].
  - destruct Hchain as (Hty & Hchildren & Hinner).
    destruct fuel as [|fuel]; [cbn in Hfuel; lia|].
    cbn [length] in Hfuel.
    destruct (IH Hinner fuel bob ltac:(lia)) as (r & bob' & Hrun & Hnb & Hpins & _).
    exists (VPins (map (prefix_pin model i) (pins_of r))), bob'.
    cbn [List.hd visit]. unfold visit_by_type. rewrite Hty.
    unfold bind, visit_interface, bind.
    rewrite (wander_interface_pins_of (visit model fuel) i bob [r] bob').
    + cbn [map concat]. rewrite app_nil_r. repeat split; [|eauto].
      rewrite Hpins. cbn [pins_of map prefix_pin Pin.name Pin.fields].
      cbn [app map]. rewrite join_cons; [reflexivity|].
      destruct inner; discriminate.
    + rewrite Hchildren. cbn [mapM]. unfold bind. rewrite Hrun. reflexivity.
    + constructor; [exact Hnb|constructor].
Qed.

(** C4. The visit of an interface-typed vertex returns neither a block
    nor a single pin but the pins gathered from its children, each renamed
    with the local name of the interface and a hyphen before its own name;
    the pins are spliced into the pin list that the enclosing vertex
    gathers; nested interfaces put their prefixes outermost first. *)
Theorem interface_flattening :
  (forall visit vertex bob,
      mvv_type model vertex = interface ->
      visit_by_type model visit vertex bob
      = match wander_interface model visit vertex bob with
        | Ok (pins, bob') =>
            Ok (VPins
                  (map (fun p => Pin.mk (mvv_ref model vertex +:+ "-" +:+ Pin.name p)
                                        (Pin.fields p))
                       pins),
                bob')
        | Raise e => Raise e
        end)
  /\ (forall fuel vertex bob visited bob',
        wander model (visit model fuel) vertex mode_in part_of
               [pin; signal; interface] bob
        = Ok (visited, bob') ->
        wander_interface model (visit model fuel) vertex bob
        = Ok (concat (map pins_of visited), bob'))
  /\ (forall interfaces p fuel bob,
        interface_chain model interfaces p ->
        interfaces <> [] ->
        length interfaces < fuel ->
        exists bob',
          visit model fuel (List.hd p interfaces) bob
          = Ok (VPins [Pin.mk (join "-" (map (mvv_ref model) (interfaces ++ [p])))
                              (Pin.fields (pin_of_vertex model p))],
                bob')).
Proof.
  split; [|split].
  - intros visit vertex bob Hty. unfold visit_by_type. rewrite Hty.
    unfold bind, visit_interface, bind.
    destruct (wander_interface model visit vertex bob) as [[pins bob']|e];
      reflexivity.
  - exact wander_interface_concat.
  - intros interfaces p fuel bob Hchain Hne Hfuel.
    destruct (visit_interface_chain interfaces p Hchain fuel bob Hfuel)
      as (r & bob' & Hrun & _ & Hpins & Hlist).
    destruct (Hlist Hne) as [ps ->]. cbn [pins_of] in Hpins. subst ps.
    exists bob'. exact Hrun.
Qed.
End Flattening.

Lemma design_nested_interfaces_chain :
  interface_chain design_nested_interfaces [1; 2] 3.
Proof.
  repeat split. right. split; [reflexivity|].
  intros (e & Hone & Hsig & _).
  vm_compute in Hone. injection Hone as <-.
  vm_compute in Hsig. discriminate Hsig.
Qed.

Lemma interface_flattening_witness :
  exists bob',
    visit design_nested_interfaces 5 1 Bob_init
    = Ok (VPins [Pin.mk "I1-I2-P" (ADict [])], bob').
Proof.
  apply (proj2 (proj2 (interface_flattening design_nested_interfaces))
               [1; 2] 3 5 Bob_init).
  - exact design_nested_interfaces_chain.
  - discriminate.
  - cbn. lia.
Defined.

(** ** The definition of a block *)

Section InstanceOf.
Variable model : Model.

Lemma check_instance_of_run (vertex : ModelVertexView) (bob : BobState) :
  check_instance_of model vertex bob =
  match get_adjacents model vertex mode_out instance_of with
  | [] => Ok (None, bob)
  | [only] => Ok (Some (mvv_path model only), bob)
  | first :: _ :: _ =>
      match log_warning (instance_of_warning model vertex) bob with
      | Ok (_, bob') => Ok (Some (mvv_path model first), bob')
      | Raise e => Raise e
      end
  end.
Proof.
  unfold check_instance_of.
  destruct (get_adjacents model vertex mode_out instance_of) as [|first [|second rest]];
    reflexivity.
Qed.

(** C7. The block of a vertex with several outbound instance_of edges
    gets the path of the first adjacent vertex and a warning is logged; with
    one such edge it gets the path of that vertex, with none it has no
    definition. Once the subelements are visited the block is built in each
    of the three cases. *)
Theorem generic_visit_block_instance_of
        (visit : ModelVertexView -> M Visited) (vertex : ModelVertexView)
        (bob : BobState) :
  match (record_vertex vertex ;; push_block vertex ;;
         find_subelements model visit vertex) bob with
  | Raise e => generic_visit_block model visit vertex bob = Raise e
  | Ok (_, bob1) =>
      exists block bob',
        generic_visit_block model visit vertex bob = Ok (block, bob')
        /\ match get_adjacents model vertex mode_out instance_of with
           | [] =>
               Block.instance_of block = None
               /\ log bob' = log bob1
           | [only] =>
               Block.instance_of block = Some (mvv_path model only)
               /\ log bob' = log bob1
           | first :: _ :: _ =>
               Block.instance_of block = Some (mvv_path model first)
               /\ log bob' = log bob1 ++ [instance_of_warning model vertex]
           end
  end.
Proof.
  unfold generic_visit_block, bind, record_vertex, push_block, modify.
  match goal with
  | |- context [find_subelements model visit vertex ?b] =>
      destruct (find_subelements model visit vertex b) as [[sub bob1]|e]
  end; [|reflexivity].
  rewrite check_instance_of_run.
  destruct (get_adjacents model vertex mode_out instance_of)
    as [|first [|second rest]]; cbn; eauto.
Qed.
End InstanceOf.

(** ** The root of a build *)

Section Root.
Context {ancestry : Ancestry}.
Variable model : Model.

Lemma instance_of_with_links (heap : gmap nat (list Link.t)) (b : Block.t) :
  Block.instance_of (with_links heap b) = Block.instance_of b.
Proof. destruct b; reflexivity. Qed.

Lemma instance_of_set_instance_of (b : Block.t) (p : option string) :
  Block.instance_of (set_instance_of b p) = p.
Proof. destruct b; reflexivity. Qed.

(** C8. The root block that [build] returns has the path of the root
    vertex as its instance_of, whatever the traversal computed for it. *)
Theorem build_root_instance_of (fuel : nat) (main : ModelVertexView) (root : Block.t) :
  build model fuel main = Ok root ->
  Block.instance_of root = Some (mvv_path model main)
  /\ exists visited bob,
      generic_visit_block model (visit model fuel) main Bob_init = Ok (visited, bob)
      /\ Block.name root = Block.name visited
      /\ Block.pins root = Block.pins visited.
Proof.
  unfold build, build_with_bob.
  destruct (generic_visit_block model (visit model fuel) main Bob_init)
    as [[visited bob]|e]; [|discriminate].
  destruct (link_connections model bob (list_to_set (all_verticies bob)) ∅
                             (connections model)) as [heap|e]; [|discriminate].
  intros [= <-]. split.
  - now rewrite instance_of_with_links, instance_of_set_instance_of.
  - exists visited, bob. destruct visited; auto.
Qed.
End Root.

Lemma build_root_instance_of_witness :
  exists root,
    build design_two_definitions 10 0 = Ok root
    /\ Block.instance_of root = Some "M".
Proof.
  eexists. split.
  - vm_compute. reflexivity.
  - eapply (build_root_instance_of design_two_definitions 10 0). vm_compute. reflexivity.
Defined.

(** ** The link pass *)

Section LinkPass.
Context {ancestry : Ancestry}.
Variable model : Model.
Variable bob : BobState.
Variable all_indicies : gset nat.

Lemma link_for_scoped (c : Edge) :
  link_for model c = (lca_of model c, scoped_link model c).
Proof.
  unfold link_for, scoped_link, lca_of.
  destruct (resolve_rel_name model [source c; target c]) as [lca link_name].
  reflexivity.
Qed.

Lemma link_connection_dropped (heap : gmap nat (list Link.t)) (c : Edge) :
  eligible all_indicies c = false ->
  link_connection model bob all_indicies heap c = Ok heap.
Proof.
  unfold eligible, link_connection. intros Hel.
  destruct (bool_decide (source c ∈ all_indicies)),
    (bool_decide (target c ∈ all_indicies)); try discriminate; reflexivity.
Qed.

Lemma link_connection_eligible (heap : gmap nat (list Link.t)) (c : Edge) :
  eligible all_indicies c = true ->
  link_connection model bob all_indicies heap c
  = match scope_of model bob c with
    | Some oid => Ok (<[oid := links_of heap oid ++ [scoped_link model c]]> heap)
    | None => Raise (KeyError (mvv_path model (lca_of model c)))
    end.
Proof.
  unfold eligible, link_connection, scope_of. intros Hel.
  apply andb_prop in Hel as [-> ->]. cbn [negb orb].
  rewrite link_for_scoped. reflexivity.
Qed.

Lemma links_of_insert (heap : gmap nat (list Link.t)) (oid oid' : nat)
      (links : list Link.t) :
  links_of (<[oid := links]> heap) oid'
  = if decide (oid = oid') then links else links_of heap oid'.
Proof. unfold links_of. rewrite lookup_insert. now destruct (decide (oid = oid')). Qed.

(** After the pass each block object holds, after the links it had, the
    links of the eligible connections scoped to it, in their order. *)
Lemma link_connections_links (cs : list Edge) :
  forall heap heap',
    link_connections model bob all_indicies heap cs = Ok heap' ->
    forall oid,
      links_of heap' oid
      = links_of heap oid
        ++ map (scoped_link model)
               (List.filter (fun c => eligible all_indicies c && scoped_to model bob oid c)
                            cs).
Proof.
  induction cs as [|c cs IH]; intros heap heap' Hrun oid; cbn in Hrun.
  - injection Hrun as <-. cbn. now rewrite app_nil_r.
  - cbn [List.filter]. unfold scoped_to at 1.
    destruct (eligible all_indicies c) eqn:Hel.
    + rewrite (link_connection_eligible heap c Hel) in Hrun.
      destruct (scope_of model bob c) as [o|] eqn:Hscope; [|discriminate].
      rewrite (IH _ _ Hrun oid), links_of_insert. cbn [andb].
      destruct (decide (o = oid)) as [->|Hne].
      * rewrite bool_decide_eq_true_2 by reflexivity.
        cbn [map]. now rewrite <- app_assoc.
      * rewrite bool_decide_eq_false_2 by congruence. reflexivity.
    + rewrite (link_connection_dropped heap c Hel) in Hrun.
      cbn [andb]. exact (IH _ _ Hrun oid).
Qed.


(** The pass raises as soon as an eligible connection has no block under
    the path of its least common ancestor. *)
Lemma link_connections_raises (cs : list Edge) (c : Edge) :
  In c cs ->
  eligible all_indicies c = true ->
  scope_of model bob c = None ->
  forall heap,
  exists c',
    In c' cs
    /\ eligible all_indicies c' = true
    /\ scope_of model bob c' = None
    /\ link_connections model bob all_indicies heap cs
       = Raise (KeyError (mvv_path model (lca_of model c'))).
Proof.
  induction cs as [|c0 cs IH]; intros Hin Hel Hscope heap; [destruct Hin|].
  cbn [link_connections].
  destruct (eligible all_indicies c0) eqn:Hel0.
  - rewrite (link_connection_eligible heap c0 Hel0).
    destruct (scope_of model bob c0) as [o|] eqn:Hscope0.
    + destruct Hin as [->|Hin]; [congruence|].
      destruct (IH Hin Hel Hscope (<[o := links_of heap o ++ [scoped_link model c0]]> heap))
        as (c' & Hin' & Hel' & Hscope' & Hrun).
      exists c'. repeat split; auto. now right.
    + exists c0. repeat split; auto. now left.
  - rewrite (link_connection_dropped heap c0 Hel0).
    destruct Hin as [->|Hin]; [congruence|].
    destruct (IH Hin Hel Hscope heap) as (c' & Hin' & Hel' & Hscope' & Hrun).
    exists c'. repeat split; auto. now right.
Qed.

(** The pass returns when every eligible connection has a block under the
    path of its least common ancestor. *)
Lemma link_connections_returns (cs : list Edge) :
  (forall c, In c cs -> eligible all_indicies c = true ->
             is_Some (scope_of model bob c)) ->
  forall heap, exists heap', link_connections model bob all_indicies heap cs = Ok heap'.
Proof.
  induction cs as [|c cs IH]; intros Hall heap; [cbn; eauto|].
  cbn [link_connections].
  destruct (eligible all_indicies c) eqn:Hel.
  - rewrite (link_connection_eligible heap c Hel).
    destruct (Hall c (or_introl eq_refl) Hel) as [o ->].
    apply IH. intros c' Hin. apply Hall. now right.
  - rewrite (link_connection_dropped heap c Hel).
    apply IH. intros c' Hin. apply Hall. now right.
Qed.
End LinkPass.

(** ** What the traversal leaves behind *)

Section Traversal.
Variable model : Model.

Lemma descendant_trans (a b c : ModelVertexView) :
  descendant model a b -> descendant model b c -> descendant model a c.
Proof.
  intros Hab Hbc. induction Hbc as [|v c _ IH Hc]; [exact Hab|].
  exact (descendant_child model a v c IH Hc).
Qed.

(** A step that makes no block and leaves the identities and the
    directory alone. *)
Lemma post_quiet (v : ModelVertexView) (bob bob' : BobState) :
  next_oid bob' = next_oid bob ->
  block_directory_by_path bob' = block_directory_by_path bob ->
  all_verticies bob' = all_verticies bob
  \/ all_verticies bob' = all_verticies bob ++ [v] ->
  traversal_post model v bob [] bob'.
Proof.
  intros Hoid Hdir Hreg. constructor.
  - lia.
  - constructor.
  - constructor.
  - constructor.
  - intros p o Hp. left. now rewrite <- Hdir.
  - intros x Hx. destruct Hreg as [Hreg|Hreg]; rewrite Hreg in Hx; [now left|].
    apply in_app_or in Hx. destruct Hx as [?|[<-|[]]]; [now left|right; constructor].
  - intros x Hx. destruct Hreg as [Hreg|Hreg]; rewrite Hreg; [exact Hx|].
    apply in_or_app. now left.
Qed.

Lemma post_trans (v : ModelVertexView) (bob bob1 bob2 : BobState)
      (bs1 bs2 : list Block.t) :
  traversal_post model v bob bs1 bob1 ->
  traversal_post model v bob1 bs2 bob2 ->
  traversal_post model v bob (bs1 ++ bs2) bob2.
Proof.
  intros [Hm1 Hr1 Hn1 Hl1 Hd1 Hg1 Hk1] [Hm2 Hr2 Hn2 Hl2 Hd2 Hg2 Hk2]. constructor.
  - lia.
  - apply List.Forall_app. split.
    + eapply List.Forall_impl; [|exact Hr1]. cbn. intros; lia.
    + eapply List.Forall_impl; [|exact Hr2]. cbn. intros; lia.
  - rewrite map_app. apply List.NoDup_app; auto.
    intros o Ho1 Ho2.
    apply in_map_iff in Ho1 as (b1 & <- & Hb1).
    apply in_map_iff in Ho2 as (b2 & Heq & Hb2).
    rewrite List.Forall_forall in Hr1, Hr2.
    specialize (Hr1 b1 Hb1). specialize (Hr2 b2 Hb2). cbn in Hr1, Hr2. lia.
  - apply List.Forall_app. split; assumption.
  - intros p o Hp. destruct (Hd2 p o Hp) as [Hp1|(b & Hb & Ho & Hpath)].
    + destruct (Hd1 p o Hp1) as [?|(b & Hb & Ho & Hpath)]; [now left|].
      right. exists b. repeat split; auto. apply in_or_app. now left.
    + right. exists b. repeat split; auto. apply in_or_app. now right.
  - intros x Hx. destruct (Hg2 x Hx) as [Hx1|?]; [|now right]. exact (Hg1 x Hx1).
  - intros x Hx. exact (Hk2 x (Hk1 x Hx)).
Qed.

Lemma post_under (v c : ModelVertexView) (bob bob' : BobState) (bs : list Block.t) :
  descendant model v c ->
  traversal_post model c bob bs bob' ->
  traversal_post model v bob bs bob'.
Proof.
  intros Hvc [Hm Hr Hn Hl Hd Hg Hk]. constructor; auto.
  intros x Hx. destruct (Hg x Hx) as [?|Hcx]; [now left|right].
  exact (descendant_trans v c x Hvc Hcx).
Qed.

Lemma mapM_post {B} (f : ModelVertexView -> M B) (g : B -> list Block.t)
      (v : ModelVertexView) (xs : list ModelVertexView) :
  (forall x bob y bob',
      In x xs -> f x bob = Ok (y, bob') -> traversal_post model v bob (g y) bob') ->
  forall bob ys bob',
    mapM f xs bob = Ok (ys, bob') ->
    traversal_post model v bob (concat (map g ys)) bob'.
Proof.
  induction xs as [|x xs IH]; intros Hf bob ys bob' Hrun; cbn in Hrun.
  - injection Hrun as <- <-. apply post_quiet; auto.
  - unfold bind in Hrun.
    destruct (f x bob) as [[y bob1]|] eqn:Hy; [|discriminate].
    destruct (mapM f xs bob1) as [[ys' bob2]|] eqn:Hys; [|discriminate].
    injection Hrun as <- <-. cbn [map concat].
    eapply post_trans.
    + apply (Hf x bob y bob1); [now left|exact Hy].
    + apply (IH (fun x0 b0 y0 b0' Hin => Hf x0 b0 y0 b0' (or_intror Hin)) bob1 ys' bob2 Hys).
Qed.

Lemma splice_pins_no_block (listy_pins : list Visited) :
  forall acc pins, splice_pins listy_pins acc = Ok pins -> Forall no_block listy_pins.
Proof.
  induction listy_pins as [|r rest IH]; intros acc pins Hrun; [constructor|].
  destruct r; cbn in Hrun; try discriminate; constructor; cbn; eauto.
Qed.

Lemma no_block_no_blocks (rs : list Visited) :
  Forall no_block rs -> concat (map visited_blocks rs) = [].
Proof.
  induction 1 as [|r rs Hr _ IH]; [reflexivity|].
  cbn. rewrite IH. destruct r; cbn in *; tauto.
Qed.

Lemma filter_no_block (rs : list Visited) :
  Forall no_block
         (List.filter (fun x => match x with VNone => false | _ => true end) rs) ->
  Forall no_block rs.
Proof.
  induction rs as [|r rs IH]; intros H; [constructor|].
  destruct r; cbn in H; try (inversion H; subst); constructor; cbn; auto.
Qed.

Lemma as_blocks_blocks (rs : list Visited) :
  forall blocks,
    as_blocks rs = Ok blocks ->
    concat (map visited_blocks rs) = concat (map subblocks blocks).
Proof.
  induction rs as [|r rs IH]; intros blocks Hrun; cbn in Hrun.
  - injection Hrun as <-. reflexivity.
  - destruct r; try discriminate.
    destruct (as_blocks rs) as [bs|]; [|discriminate].
    injection Hrun as <-. cbn. now rewrite (IH bs eq_refl).
Qed.
End Traversal.

Section TraversalStep.
Variable model : Model.
Variable visit_fn : ModelVertexView -> M Visited.
Hypothesis visit_fn_post :
  forall v bob r bob',
    visit_fn v bob = Ok (r, bob') ->
    traversal_post model v bob (visited_blocks r) bob'.

Lemma wander_post (v : ModelVertexView) (vertex_types : list VertexType)
      (bob : BobState) (rs : list Visited) (bob' : BobState) :
  wander model visit_fn v mode_in part_of vertex_types bob = Ok (rs, bob') ->
  traversal_post model v bob (concat (map visited_blocks rs)) bob'.
Proof.
  unfold wander. apply mapM_post.
  intros x b y b' Hx Hy. apply filter_In in Hx as [Hx _].
  apply (post_under model v x).
  - exact (descendant_child model v v x (descendant_self model v) Hx).
  - exact (visit_fn_post x b y b' Hy).
Qed.

Lemma wander_interface_post (v : ModelVertexView) (bob : BobState)
      (pins : list Pin.t) (bob' : BobState) :
  wander_interface model visit_fn v bob = Ok (pins, bob') ->
  traversal_post model v bob [] bob'.
Proof.
  unfold wander_interface, bind, lift. intros Hrun.
  destruct (wander model visit_fn v mode_in part_of [pin; signal; interface] bob)
    as [[rs bob1]|] eqn:Hwander; [|discriminate].
  destruct (splice_pins _ []) as [ps|] eqn:Hsplice; [|discriminate].
  injection Hrun as <- <-.
  apply splice_pins_no_block, filter_no_block, no_block_no_blocks in Hsplice.
  rewrite <- Hsplice. exact (wander_post v _ bob rs bob1 Hwander).
Qed.

Lemma visit_interface_post (v : ModelVertexView) (bob : BobState)
      (pins : list Pin.t) (bob' : BobState) :
  visit_interface model visit_fn v bob = Ok (pins, bob') ->
  traversal_post model v bob [] bob'.
Proof.
  unfold visit_interface, bind. intros Hrun.
  destruct (wander_interface model visit_fn v bob) as [[ps bob1]|] eqn:Hw;
    [|discriminate].
  injection Hrun as _ <-. exact (wander_interface_post v bob ps bob1 Hw).
Qed.

Lemma visit_pin_post (v : ModelVertexView) (bob : BobState)
      (r : option Pin.t) (bob' : BobState) :
  visit_pin model v bob = Ok (r, bob') ->
  traversal_post model v bob [] bob'.
Proof.
  unfold visit_pin, bind, record_vertex, modify, ret, raise, generic_visit_pin,
    set_pin_directory.
  intros Hrun.
  repeat match type of Hrun with
         | context [if ?c then _ else _] => destruct c
         | context [match ?c with Some _ => _ | None => _ end] => destruct c
         end;
    cbn in Hrun; inversion Hrun; subst;
    (apply post_quiet; cbn; auto).
Qed.

Lemma visit_signal_post (v : ModelVertexView) (bob : BobState)
      (p : Pin.t) (bob' : BobState) :
  visit_signal model v bob = Ok (p, bob') ->
  traversal_post model v bob [] bob'.
Proof.
  unfold visit_signal, bind, record_vertex, modify, ret, generic_visit_pin,
    set_pin_directory.
  cbn. intros [= <- <-].
  apply post_quiet; cbn; auto.
Qed.

Lemma check_instance_of_post (v : ModelVertexView) (bob : BobState)
      (io : option string) (bob' : BobState) :
  check_instance_of model v bob = Ok (io, bob') ->
  traversal_post model v bob [] bob'.
Proof.
  rewrite check_instance_of_run.
  destruct (get_adjacents model v mode_out instance_of) as [|first [|second rest]];
    cbn; intros [= <- <-]; apply post_quiet; cbn; auto.
Qed.

Lemma find_subelements_post (v : ModelVertexView) (bob : BobState)
      (blocks : list Block.t) (pins : list Pin.t) (bob' : BobState) :
  find_subelements model visit_fn v bob = Ok ((blocks, pins), bob') ->
  traversal_post model v bob (concat (map subblocks blocks)) bob'.
Proof.
  unfold find_subelements, bind, lift, ret. intros Hrun.
  destruct (wander model visit_fn v mode_in part_of [component; module] bob)
    as [[rs bob1]|] eqn:Hwander; [|discriminate].
  destruct (as_blocks rs) as [bs|] eqn:Hbs; [|discriminate].
  destruct (wander_interface model visit_fn v bob1) as [[ps bob2]|] eqn:Hpins;
    [|discriminate].
  injection Hrun as <- <- <-.
  rewrite <- (as_blocks_blocks rs bs Hbs), <- (app_nil_r (concat _)).
  eapply post_trans.
  - exact (wander_post v _ bob rs bob1 Hwander).
  - exact (wander_interface_post v bob1 ps bob2 Hpins).
Qed.

Lemma generic_visit_block_post (v : ModelVertexView) (bob : BobState)
      (block : Block.t) (bob' : BobState) :
  generic_visit_block model visit_fn v bob = Ok (block, bob') ->
  traversal_post model v bob (subblocks block) bob'
  /\ Block.source block = v
  /\ In v (all_verticies bob').
Proof.
  unfold generic_visit_block, bind, record_vertex, push_block, modify.
  match goal with
  | |- context [find_subelements model visit_fn v ?b] =>
      set (bob_in := b);
      destruct (find_subelements model visit_fn v bob_in)
        as [[[blocks pins] bob1]|] eqn:Hsub
  end; [|discriminate].
  destruct (check_instance_of model v bob1) as [[io bob2]|] eqn:Hio; [|discriminate].
  unfold new_oid, set_block_directory, pop_block, modify, ret. cbn.
  intros [= <- <-].
  assert (Hinner : traversal_post model v bob_in (concat (map subblocks blocks)) bob2).
  { rewrite <- (app_nil_r (concat _)).
    eapply post_trans.
    - exact (find_subelements_post v bob_in blocks pins bob1 Hsub).
    - exact (check_instance_of_post v bob1 io bob2 Hio). }
  assert (Hpost : traversal_post model v bob (concat (map subblocks blocks)) bob2).
  { change (concat (map subblocks blocks)) with ([] ++ concat (map subblocks blocks)).
    eapply (post_trans model v bob bob_in); [|exact Hinner].
    apply post_quiet; cbn; auto. }
  split; [|split; [reflexivity|]].
  - destruct Hpost as [Hm Hr Hn Hl Hd Hg Hk].
    cbn [subblocks]. constructor; cbn.
    + lia.
    + constructor; cbn; [lia|].
      eapply List.Forall_impl; [|exact Hr]. cbn. intros; lia.
    + constructor; [|exact Hn].
      intros Hin. apply in_map_iff in Hin as (b & Hb & Hin).
      rewrite List.Forall_forall in Hr. specialize (Hr b Hin). cbn in Hr. lia.
    + constructor; [reflexivity|exact Hl].
    + intros p o Hp. rewrite lookup_insert in Hp.
      destruct (decide (mvv_path model v = p)) as [<-|Hne].
      * injection Hp as <-. right. eexists. split; [left; reflexivity|]. cbn. auto.
      * destruct (Hd p o Hp) as [?|(b & Hb & Ho & Hpath)]; [now left|].
        right. exists b. repeat split; auto.
    + exact Hg.
    + exact Hk.
  - cbn. apply (post_kept _ _ _ _ _ Hinner). cbn. apply in_or_app. right. now left.
Qed.

Lemma visit_by_type_post (v : ModelVertexView) (bob : BobState)
      (r : Visited) (bob' : BobState) :
  visit_by_type model visit_fn v bob = Ok (r, bob') ->
  traversal_post model v bob (visited_blocks r) bob'.
Proof.
  unfold visit_by_type, visit_component, visit_module, bind, ret, raise.
  destruct (mvv_type model v); try discriminate.
  - destruct (generic_visit_block model visit_fn v bob) as [[b bob1]|] eqn:Hb;
      [|discriminate].
    intros [= <- <-]. exact (proj1 (generic_visit_block_post v bob b bob1 Hb)).
  - destruct (generic_visit_block model visit_fn v bob) as [[b bob1]|] eqn:Hb;
      [|discriminate].
    intros [= <- <-]. exact (proj1 (generic_visit_block_post v bob b bob1 Hb)).
  - destruct (visit_interface model visit_fn v bob) as [[ps bob1]|] eqn:Hi;
      [|discriminate].
    intros [= <- <-]. exact (visit_interface_post v bob ps bob1 Hi).
  - destruct (visit_pin model v bob) as [[o bob1]|] eqn:Hp; [|discriminate].
    intros [= <- <-].
    replace (visited_blocks _) with (@nil Block.t) by (now destruct o).
    exact (visit_pin_post v bob o bob1 Hp).
  - destruct (visit_signal model v bob) as [[p bob1]|] eqn:Hs; [|discriminate].
    intros [= <- <-]. exact (visit_signal_post v bob p bob1 Hs).
Qed.
End TraversalStep.

Lemma visit_post (model : Model) (fuel : nat) :
  forall v bob r bob',
    visit model fuel v bob = Ok (r, bob') ->
    traversal_post model v bob (visited_blocks r) bob'.
Proof.
  induction fuel as [|fuel IH]; intros v bob r bob' Hrun; [discriminate|].
  exact (visit_by_type_post model (visit model fuel) IH v bob r bob' Hrun).
Qed.

(** Every visit but that of an interface registers its vertex. *)
Lemma visit_registers (model : Model) (fuel : nat) (v : ModelVertexView)
      (bob : BobState) (r : Visited) (bob' : BobState) :
  visit model fuel v bob = Ok (r, bob') ->
  mvv_type model v <> interface ->
  In v (all_verticies bob').
Proof.
  destruct fuel as [|fuel]; [discriminate|].
  cbn [visit]. unfold visit_by_type, visit_component, visit_module, bind, ret, raise.
  intros Hrun Hty. destruct (mvv_type model v); try discriminate; try congruence.
  - destruct (generic_visit_block model (visit model fuel) v bob)
      as [[b bob1]|] eqn:Hb; [|discriminate].
    injection Hrun as _ <-.
    apply (generic_visit_block_post model (visit model fuel) (visit_post model fuel)
             v bob b bob1 Hb).
  - destruct (generic_visit_block model (visit model fuel) v bob)
      as [[b bob1]|] eqn:Hb; [|discriminate].
    injection Hrun as _ <-.
    apply (generic_visit_block_post model (visit model fuel) (visit_post model fuel)
             v bob b bob1 Hb).
  - destruct (visit_pin model v bob) as [[o bob1]|] eqn:Hp; [|discriminate].
    injection Hrun as _ <-.
    rewrite (visit_pin_registers model v bob o bob1 Hp).
    apply in_or_app. right. now left.
  - unfold visit_signal, bind, record_vertex, modify, generic_visit_pin,
      set_pin_directory, ret in Hrun.
    cbn in Hrun. injection Hrun as _ <-. cbn. apply in_or_app. right. now left.
Qed.

(** ** The tree and the links read back into it *)

Lemma Block_nested_ind (P : Block.t -> Prop) :
  (forall name type fields blocks pins links inst src oid,
      Forall P blocks ->
      P (Block.mk name type fields blocks pins links inst src oid)) ->
  forall b, P b.
Proof.
  intros Hnode. fix IH 1.
  intros [name type fields blocks pins links inst src oid].
  apply Hnode.
  revert blocks. fix IHblocks 1. intros [|c cs].
  - constructor.
  - constructor; [apply IH | apply IHblocks].
Qed.

Lemma subblocks_with_links (heap : gmap nat (list Link.t)) (b : Block.t) :
  subblocks (with_links heap b) = map (with_links heap) (subblocks b).
Proof.
  induction b as [name type fields blocks pins links inst src oid IH]
    using Block_nested_ind.
  cbn [with_links subblocks map]. f_equal.
  rewrite concat_map, !map_map. f_equal.
  induction IH as [|c cs Hc _ IHcs]; [reflexivity|].
  cbn [map]. now rewrite Hc, IHcs.
Qed.

Lemma oid_with_links (heap : gmap nat (list Link.t)) (b : Block.t) :
  Block.oid (with_links heap b) = Block.oid b.
Proof. destruct b; reflexivity. Qed.

Lemma links_with_links (heap : gmap nat (list Link.t)) (b : Block.t) :
  Block.links (with_links heap b) = Block.links b ++ links_of heap (Block.oid b).
Proof. destruct b; reflexivity. Qed.

Lemma source_with_links (heap : gmap nat (list Link.t)) (b : Block.t) :
  Block.source (with_links heap b) = Block.source b.
Proof. destruct b; reflexivity. Qed.

Lemma subblocks_set_instance_of (b : Block.t) (p : option string) :
  subblocks (set_instance_of b p)
  = set_instance_of b p :: List.tl (subblocks b).
Proof. destruct b; reflexivity. Qed.

Lemma subblocks_head (b : Block.t) : subblocks b = b :: List.tl (subblocks b).
Proof. destruct b; reflexivity. Qed.

Lemma oid_set_instance_of (b : Block.t) (p : option string) :
  Block.oid (set_instance_of b p) = Block.oid b.
Proof. destruct b; reflexivity. Qed.

Lemma links_set_instance_of (b : Block.t) (p : option string) :
  Block.links (set_instance_of b p) = Block.links b.
Proof. destruct b; reflexivity. Qed.

Lemma source_set_instance_of (b : Block.t) (p : option string) :
  Block.source (set_instance_of b p) = Block.source b.
Proof. destruct b; reflexivity. Qed.

(** The blocks of the tree that [build] returns are those the traversal
    made, each with its identity and its vertex, and with the links that
    the pass appended to the object. *)
Lemma built_subblocks (heap : gmap nat (list Link.t)) (visited : Block.t)
      (p : option string) (b : Block.t) :
  In b (subblocks (with_links heap (set_instance_of visited p))) ->
  exists b0,
    In b0 (subblocks visited)
    /\ Block.oid b = Block.oid b0
    /\ Block.source b = Block.source b0
    /\ Block.links b = Block.links b0 ++ links_of heap (Block.oid b0).
Proof.
  rewrite subblocks_with_links, subblocks_set_instance_of.
  intros Hin. apply in_map_iff in Hin as (b1 & <- & Hin).
  rewrite oid_with_links, source_with_links, links_with_links.
  destruct Hin as [<-|Hin].
  - exists visited. rewrite oid_set_instance_of, source_set_instance_of,
      links_set_instance_of.
    repeat split. rewrite subblocks_head. now left.
  - exists b1. repeat split. rewrite subblocks_head. now right.
Qed.

Lemma built_subblocks_of (heap : gmap nat (list Link.t)) (visited : Block.t)
      (p : option string) (b0 : Block.t) :
  In b0 (subblocks visited) ->
  exists b,
    In b (subblocks (with_links heap (set_instance_of visited p)))
    /\ Block.oid b = Block.oid b0
    /\ Block.source b = Block.source b0.
Proof.
  rewrite subblocks_with_links, subblocks_set_instance_of.
  rewrite (subblocks_head visited) at 1. intros [<-|Hin].
  - exists (with_links heap (set_instance_of visited p)).
    rewrite oid_with_links, source_with_links, oid_set_instance_of,
      source_set_instance_of.
    repeat split. now left.
  - exists (with_links heap b0). rewrite oid_with_links, source_with_links.
    repeat split. right. now apply in_map.
Qed.

Lemma built_oids (heap : gmap nat (list Link.t)) (visited : Block.t)
      (p : option string) :
  map Block.oid (subblocks (with_links heap (set_instance_of visited p)))
  = map Block.oid (subblocks visited).
Proof.
  rewrite subblocks_with_links, subblocks_set_instance_of, map_map.
  rewrite (subblocks_head visited) at 2. cbn [map].
  rewrite oid_with_links, oid_set_instance_of. f_equal.
  apply map_ext. intros b. apply oid_with_links.
Qed.

(** ** The vertices that blocks are made of *)

Section BlockKinds.
Variable model : Model.

Lemma mapM_concat_Forall {B} (f : ModelVertexView -> M B) (g : B -> list Block.t)
      (Q : Block.t -> Prop) (xs : list ModelVertexView) :
  (forall x bob y bob', f x bob = Ok (y, bob') -> Forall Q (g y)) ->
  forall bob ys bob',
    mapM f xs bob = Ok (ys, bob') -> Forall Q (concat (map g ys)).
Proof.
  intros Hf. induction xs as [|x xs IH]; intros bob ys bob' Hrun; cbn in Hrun.
  - injection Hrun as <- _. constructor.
  - unfold bind in Hrun.
    destruct (f x bob) as [[y bob1]|] eqn:Hy; [|discriminate].
    destruct (mapM f xs bob1) as [[ys' bob2]|] eqn:Hys; [|discriminate].
    injection Hrun as <- _. cbn [map concat].
    apply List.Forall_app. split; [exact (Hf x bob y bob1 Hy)|exact (IH bob1 ys' bob2 Hys)].
Qed.

Section Step.
Variable visit_fn : ModelVertexView -> M Visited.
Hypothesis visit_fn_kinds :
  forall v bob r bob',
    visit_fn v bob = Ok (r, bob') -> Forall (block_kind model) (visited_blocks r).

Lemma generic_visit_block_source (v : ModelVertexView) (bob : BobState)
      (block : Block.t) (bob' : BobState) :
  generic_visit_block model visit_fn v bob = Ok (block, bob') ->
  Block.source block = v.
Proof.
  unfold generic_visit_block, bind, record_vertex, push_block, modify.
  match goal with
  | |- context [find_subelements model visit_fn v ?b] =>
      destruct (find_subelements model visit_fn v b) as [[sub bob1]|]
  end; [|discriminate].
  destruct (check_instance_of model v bob1) as [[io bob2]|]; [|discriminate].
  unfold new_oid, set_block_directory, pop_block, modify, ret. cbn.
  intros [= <- _]. reflexivity.
Qed.

Lemma generic_visit_block_kinds (v : ModelVertexView) (bob : BobState)
      (block : Block.t) (bob' : BobState) :
  generic_visit_block model visit_fn v bob = Ok (block, bob') ->
  Forall (block_kind model) (List.tl (subblocks block)).
Proof.
  unfold generic_visit_block, bind, record_vertex, push_block, modify.
  match goal with
  | |- context [find_subelements model visit_fn v ?b] =>
      set (bob_in := b);
      destruct (find_subelements model visit_fn v bob_in)
        as [[[blocks pins] bob1]|] eqn:Hsub
  end; [|discriminate].
  destruct (check_instance_of model v bob1) as [[io bob2]|]; [|discriminate].
  unfold new_oid, set_block_directory, pop_block, modify, ret. cbn.
  intros [= <- _]. cbn [subblocks List.tl].
  unfold find_subelements, bind, lift, ret in Hsub.
  destruct (wander model visit_fn v mode_in part_of [component; module] bob_in)
    as [[rs bob3]|] eqn:Hwander; [|discriminate].
  destruct (as_blocks rs) as [bs|] eqn:Hbs; [|discriminate].
  destruct (wander_interface model visit_fn v bob3) as [[ps bob4]|]; [|discriminate].
  injection Hsub as <- _ _.
  rewrite <- (as_blocks_blocks rs bs Hbs).
  exact (mapM_concat_Forall visit_fn visited_blocks (block_kind model) _
           visit_fn_kinds bob_in rs bob3 Hwander).
Qed.

Lemma visit_by_type_kinds (v : ModelVertexView) (bob : BobState)
      (r : Visited) (bob' : BobState) :
  visit_by_type model visit_fn v bob = Ok (r, bob') ->
  Forall (block_kind model) (visited_blocks r).
Proof.
  unfold visit_by_type, visit_component, visit_module, bind, ret, raise.
  destruct (mvv_type model v) eqn:Hty; try discriminate.
  - destruct (generic_visit_block model visit_fn v bob) as [[b bob1]|] eqn:Hb;
      [|discriminate].
    intros [= <- _]. cbn [visited_blocks]. rewrite subblocks_head. constructor.
    + unfold block_kind.
      rewrite (generic_visit_block_source v bob b bob1 Hb). now left.
    + exact (generic_visit_block_kinds v bob b bob1 Hb).
  - destruct (generic_visit_block model visit_fn v bob) as [[b bob1]|] eqn:Hb;
      [|discriminate].
    intros [= <- _]. cbn [visited_blocks]. rewrite subblocks_head. constructor.
    + unfold block_kind.
      rewrite (generic_visit_block_source v bob b bob1 Hb). now right.
    + exact (generic_visit_block_kinds v bob b bob1 Hb).
  - destruct (visit_interface model visit_fn v bob) as [[ps bob1]|]; [|discriminate].
    intros [= <- _]. constructor.
  - destruct (visit_pin model v bob) as [[[p|] bob1]|]; try discriminate;
      intros [= <- _]; constructor.
  - destruct (visit_signal model v bob) as [[p bob1]|]; [|discriminate].
    intros [= <- _]. constructor.
Qed.
End Step.

Lemma visit_kinds (fuel : nat) :
  forall v bob r bob',
    visit model fuel v bob = Ok (r, bob') ->
    Forall (block_kind model) (visited_blocks r).
Proof.
  induction fuel as [|fuel IH]; intros v bob r bob' Hrun; [discriminate|].
  exact (visit_by_type_kinds (visit model fuel) IH v bob r bob' Hrun).
Qed.
End BlockKinds.

(** ** Link scoping *)

Section Scoping.
Context {ancestry : Ancestry}.
Variable model : Model.

Lemma build_with_bob_inv (fuel : nat) (main : ModelVertexView)
      (root : Block.t) (bob : BobState) :
  build_with_bob model fuel main = Ok (root, bob) ->
  exists visited heap,
    generic_visit_block model (visit model fuel) main Bob_init = Ok (visited, bob)
    /\ link_connections model bob (list_to_set (all_verticies bob)) ∅
                        (connections model) = Ok heap
    /\ root = with_links heap (set_instance_of visited (Some (mvv_path model main))).
Proof.
  unfold build_with_bob.
  destruct (generic_visit_block model (visit model fuel) main Bob_init)
    as [[visited bob0]|]; [|discriminate].
  destruct (link_connections model bob0 (list_to_set (all_verticies bob0)) ∅
                             (connections model)) as [heap|] eqn:Hpass;
    [|discriminate].
  intros [= <- <-]. eauto.
Qed.

Lemma root_post (fuel : nat) (main : ModelVertexView)
      (visited : Block.t) (bob : BobState) :
  generic_visit_block model (visit model fuel) main Bob_init = Ok (visited, bob) ->
  traversal_post model main Bob_init (subblocks visited) bob.
Proof.
  intros Hrun.
  exact (proj1 (generic_visit_block_post model (visit model fuel)
                  (visit_post model fuel) main Bob_init visited bob Hrun)).
Qed.

(** The directory of a finished traversal holds blocks of the tree only. *)
Lemma directory_in_tree (fuel : nat) (main : ModelVertexView)
      (visited : Block.t) (bob : BobState) (p : string) (o : nat) :
  generic_visit_block model (visit model fuel) main Bob_init = Ok (visited, bob) ->
  block_directory_by_path bob !! p = Some o ->
  exists b,
    In b (subblocks visited) /\ Block.oid b = o
    /\ mvv_path model (Block.source b) = p.
Proof.
  intros Hrun Hp.
  destruct (post_dir _ _ _ _ _ (root_post fuel main visited bob Hrun) p o Hp)
    as [Hinit|Hb]; [|exact Hb].
  cbn in Hinit. rewrite lookup_empty in Hinit. discriminate.
Qed.

(** C2. When a build returns, every connects_to edge with both endpoints
    in the registry has put one link, named by the resolution and with the
    two rendered relative paths, into one block of the tree: the block the
    directory holds under the path of the least common ancestor. The build
    returns exactly when the traversal does and the directory has a block
    for every such edge; when it has none for one of them the build fails
    with a lookup error and returns no tree, whatever the directory holds
    for the other edges. *)
Theorem link_scoping :
  (forall fuel main root bob,
      build_with_bob model fuel main = Ok (root, bob) ->
      List.NoDup (map Block.oid (subblocks root))
      /\ (forall c,
            In c (connections model) ->
            eligible (list_to_set (all_verticies bob)) c = true ->
            exists b,
              In b (subblocks root)
              /\ scope_of model bob c = Some (Block.oid b)
              /\ mvv_path model (Block.source b) = mvv_path model (lca_of model c))
      /\ (forall b,
            In b (subblocks root) ->
            Block.links b
            = map (scoped_link model)
                  (List.filter
                     (fun c => eligible (list_to_set (all_verticies bob)) c
                               && scoped_to model bob (Block.oid b) c)
                     (connections model)))
      /\ (exists visited,
            generic_visit_block model (visit model fuel) main Bob_init
            = Ok (visited, bob)))
  /\ (forall fuel main visited bob,
        generic_visit_block model (visit model fuel) main Bob_init
        = Ok (visited, bob) ->
        (forall c,
            In c (connections model) ->
            eligible (list_to_set (all_verticies bob)) c = true ->
            is_Some (scope_of model bob c)) ->
        exists root, build_with_bob model fuel main = Ok (root, bob))
  /\ (forall fuel main visited bob c,
        generic_visit_block model (visit model fuel) main Bob_init
        = Ok (visited, bob) ->
        In c (connections model) ->
        eligible (list_to_set (all_verticies bob)) c = true ->
        scope_of model bob c = None ->
        exists key, build model fuel main = Raise (KeyError key)).
Proof.
  split; [|split].
  - intros fuel main root bob Hbuild.
    destruct (build_with_bob_inv fuel main root bob Hbuild)
      as (visited & heap & Hvisit & Hpass & ->).
    pose proof (root_post fuel main visited bob Hvisit) as Hpost.
    split; [|split; [|split; [|exists visited; exact Hvisit]]].
    + rewrite built_oids. exact (post_nodup _ _ _ _ _ Hpost).
    + intros c Hc Hel.
      destruct (scope_of model bob c) as [o|] eqn:Hscope.
      * destruct (directory_in_tree fuel main visited bob _ o Hvisit Hscope)
          as (b0 & Hb0 & Ho & Hpath).
        destruct (built_subblocks_of heap visited (Some (mvv_path model main)) b0 Hb0)
          as (b & Hb & Hoid & Hsrc).
        exists b. split; [exact Hb|]. split; congruence.
      * destruct (link_connections_raises model bob _ (connections model) c
                    Hc Hel Hscope ∅) as (c' & _ & _ & _ & Hraise).
        rewrite Hraise in Hpass. discriminate.
    + intros b Hb.
      destruct (built_subblocks heap visited _ b Hb) as (b0 & Hb0 & Hoid & _ & ->).
      pose proof (post_links _ _ _ _ _ Hpost) as Hlinks.
      rewrite List.Forall_forall in Hlinks. rewrite (Hlinks b0 Hb0). cbn [app].
      rewrite (link_connections_links model bob _ (connections model) ∅ heap Hpass).
      rewrite Hoid. unfold links_of at 1. rewrite lookup_empty. reflexivity.
  - intros fuel main visited bob Hvisit Hall.
    destruct (link_connections_returns model bob _ (connections model) Hall ∅)
      as [heap Hpass].
    unfold build_with_bob. rewrite Hvisit, Hpass. eauto.
  - intros fuel main visited bob c Hvisit Hc Hel Hscope.
    destruct (link_connections_raises model bob _ (connections model) c
                Hc Hel Hscope ∅) as (c' & _ & _ & _ & Hraise).
    unfold build, build_with_bob. rewrite Hvisit, Hraise. eauto.
Qed.
End Scoping.

Lemma link_scoping_witness :
  exists root bob,
    build_with_bob design_two_components 10 0 = Ok (root, bob)
    /\ List.NoDup (map Block.oid (subblocks root))
    /\ map Link.source (Block.links root) = ["C2.q"]
    /\ map Link.target (Block.links root) = ["C1.p"].
Proof.
  eexists. eexists. split; [vm_compute; reflexivity|].
  split; [|split; reflexivity].
  eapply proj1, (proj1 (link_scoping design_two_components) 10 0).
  vm_compute. reflexivity.
Defined.

(** ** Connections that leave the registry *)

Section Dangling.
Context {ancestry : Ancestry}.
Variable model : Model.



End Dangling.



(** ** A least common ancestor without a block *)

Lemma directory_keys (model : Model) (fuel : nat) (main : ModelVertexView)
      (visited : Block.t) (bob : BobState) (p : string) :
  generic_visit_block model (visit model fuel) main Bob_init = Ok (visited, bob) ->
  is_Some (block_directory_by_path bob !! p) ->
  exists v,
    mvv_path model v = p
    /\ (v = main \/ mvv_type model v = module \/ mvv_type model v = component).
Proof.
  intros Hrun [o Hp].
  destruct (directory_in_tree model fuel main visited bob p o Hrun Hp)
    as (b & Hb & _ & Hpath).
  exists (Block.source b). split; [exact Hpath|].
  rewrite subblocks_head in Hb. destruct Hb as [<-|Hb].
  - left.
    exact (generic_visit_block_source model (visit model fuel) main Bob_init
             visited bob Hrun).
  - right.
    pose proof (generic_visit_block_kinds model (visit model fuel)
                  (visit_kinds model fuel) main Bob_init visited bob Hrun) as Hk.
    rewrite List.Forall_forall in Hk. exact (Hk b Hb).
Qed.

(** C10. In the design of a module [M] with an interface [I] whose two
    pins are wired to each other, both endpoints of the connects_to edge are
    registered and the directory has nothing under the path of [I]; with a
    resolution that gives [I], the parent of both pins, as their least
    common ancestor the build fails with a lookup error under that path.
    For every design the directory holds the paths of the root and of the
    modules and components made into blocks, and no other. *)
Theorem interface_scope_lookup_fails :
  (mvv_type design_interface_wire 1 = interface
   /\ mvv_type design_interface_wire 2 = pin
   /\ mvv_type design_interface_wire 3 = pin
   /\ In 2 (get_adjacents design_interface_wire 1 mode_in part_of)
   /\ In 3 (get_adjacents design_interface_wire 1 mode_in part_of)
   /\ In (wire 2 3) (connections design_interface_wire))
  /\ (exists visited bob,
        generic_visit_block design_interface_wire (visit design_interface_wire 2)
                            0 Bob_init
        = Ok (visited, bob)
        /\ In 2 (all_verticies bob)
        /\ In 3 (all_verticies bob)
        /\ block_directory_by_path bob !! "M.I" = None)
  /\ (forall (ancestry : Ancestry) (fuel : nat),
        lca_of design_interface_wire (wire 2 3) = 1 ->
        2 <= fuel ->
        build design_interface_wire fuel 0 = Raise (KeyError "M.I"))
  /\ (forall model fuel main visited bob p,
        generic_visit_block model (visit model fuel) main Bob_init = Ok (visited, bob) ->
        is_Some (block_directory_by_path bob !! p) ->
        exists v,
          mvv_path model v = p
          /\ (v = main \/ mvv_type model v = module \/ mvv_type model v = component)).
Proof.
  split; [|split; [|split]].
  - repeat split; vm_compute; tauto.
  - eexists. eexists. split; [vm_compute; reflexivity|].
    split; [cbn; tauto|]. split; [cbn; tauto|]. vm_compute. reflexivity.
  - intros ancestry [|[|fuel]] Hlca Hfuel; try lia.
    unfold build, build_with_bob.
    destruct (generic_visit_block design_interface_wire
                (visit design_interface_wire (S (S fuel))) 0 Bob_init)
      as [[visited bob]|e] eqn:Hrun; vm_compute in Hrun; [|discriminate Hrun].
    injection Hrun as <- <-.
    match goal with
    | |- context [link_connections _ ?b ?all ∅ ?cs] =>
        assert (Hel : eligible all (wire 2 3) = true) by (vm_compute; reflexivity);
        assert (Hscope : scope_of design_interface_wire b (wire 2 3) = None)
          by (unfold scope_of; rewrite Hlca; vm_compute; reflexivity);
        destruct (link_connections_raises design_interface_wire b all cs (wire 2 3)
                    (or_introl eq_refl) Hel Hscope ∅)
          as (c & Hc & _ & _ & Hraise)
    end.
    destruct Hc as [<-|[]]. rewrite Hraise, Hlca. reflexivity.
  - exact directory_keys.
Qed.

Lemma interface_scope_lookup_fails_witness :
  lca_of design_interface_wire (wire 2 3) = 1
  /\ build design_interface_wire 2 0 = Raise (KeyError "M.I").
Proof.
  split; [reflexivity|].
  apply (proj1 (proj2 (proj2 interface_scope_lookup_fails)) reference_ancestry 2).
  - reflexivity.
  - lia.
Defined.

(** The claim as written promises a link for every edge with registered
    endpoints: here both pins are registered and the build has no result
    at all. *)
Lemma link_scoping_counterexample :
  In (wire 2 3) (connections design_interface_wire)
  /\ (exists visited bob,
        generic_visit_block design_interface_wire (visit design_interface_wire 10)
                            0 Bob_init
        = Ok (visited, bob)
        /\ eligible (list_to_set (all_verticies bob)) (wire 2 3) = true
        /\ scope_of design_interface_wire bob (wire 2 3) = None)
  /\ build design_interface_wire 10 0 = Raise (KeyError "M.I")
  /\ forall fuel root, build design_interface_wire fuel 0 <> Ok root.
Proof.
  split; [now left|]. split; [|split].
  - eexists. eexists. split; [vm_compute; reflexivity|].
    split; vm_compute; reflexivity.
  - vm_compute. reflexivity.
  - intros [|[|fuel]] root; vm_compute; discriminate.
Qed.

(** ** The registry and the interfaces *)

(** C6. The visit of the interface [I1] of the nested design returns its
    flattened pin and registers the pin, not the interface nor the
    interface inside it; after the whole build the registry holds the
    blocks and the pins and no interface. *)
Theorem interface_not_registered :
  mvv_type design_nested_interfaces 1 = interface
  /\ mvv_type design_nested_interfaces 2 = interface
  /\ (exists bob',
        visit design_nested_interfaces 3 1 Bob_init
        = Ok (VPins [Pin.mk "I1-I2-P" (ADict [])], bob')
        /\ all_verticies bob' = [3])
  /\ exists root bob,
      build_with_bob design_nested_interfaces 10 0 = Ok (root, bob)
      /\ map Pin.name (Block.pins root) = ["I1-I2-P"]
      /\ all_verticies bob = [0; 4; 5; 3]
      /\ ~ In 1 (all_verticies bob)
      /\ ~ In 2 (all_verticies bob).
Proof.
  split; [reflexivity|]. split; [reflexivity|]. split.
  - eexists. split; [vm_compute; reflexivity|reflexivity].
  - eexists. eexists. split; [vm_compute; reflexivity|].
    split; [reflexivity|]. split; [reflexivity|].
    split; cbn; intuition discriminate.
Qed.

(** ** Serialization *)

(** C9. The record of a block has the seven entries name, type, fields,
    blocks, pins, links and instance_of in this order: the child records
    are the records of the child blocks in their order, a pin record holds
    the name and the fields of the pin, a link record its name, source and
    target, all as they are in the block, and the entry instance_of holds
    the path, or None when the block has none. The record is a function of
    these seven attributes alone. *)
Theorem block_to_dict_record (self : Block.t) :
  Block.to_dict self
  = [("name", AStr (Block.name self));
     ("type", AStr (Block.type self));
     ("fields", Block.fields self);
     ("blocks", AList (map (fun block => ADict (Block.to_dict block))
                           (Block.blocks self)));
     ("pins", AList (map (fun p => ADict [("name", AStr (Pin.name p));
                                          ("fields", Pin.fields p)])
                         (Block.pins self)));
     ("links", AList (map (fun l => ADict [("name", AStr (Link.name l));
                                           ("source", AStr (Link.source l));
                                           ("target", AStr (Link.target l))])
                          (Block.links self)));
     ("instance_of", match Block.instance_of self with
                     | Some p => AStr p
                     | None => ANone
                     end)]
  /\ dict_lookup (Block.to_dict self) "instance_of"
     = Some (match Block.instance_of self with
             | Some p => AStr p
             | None => ANone
             end)
  /\ forall src oid,
      Block.to_dict
        (Block.mk (Block.name self) (Block.type self) (Block.fields self)
                  (Block.blocks self) (Block.pins self) (Block.links self)
                  (Block.instance_of self) src oid)
      = Block.to_dict self.
Proof.
  destruct self as [name type fields blocks pins links inst src oid].
  repeat split.
Qed.

(** * Further properties *)

(** ** The runs of the methods *)

Lemma mapM_runs {A B} (f : A -> M B) (xs : list A) :
  forall bob ys bob', mapM f xs bob = Ok (ys, bob') <-> runs f xs bob ys bob'.
Proof.
  induction xs as [|x xs IH]; intros bob ys bob'; cbn [mapM]; unfold bind, ret.
  - split.
    + intros [= <- <-]. constructor.
    + intros Hruns. inversion Hruns; subst. reflexivity.
  - split.
    + destruct (f x bob) as [[y bob1]|] eqn:Hy; [|discriminate].
      destruct (mapM f xs bob1) as [[ys' bob2]|] eqn:Hys; [|discriminate].
      intros [= <- <-]. econstructor; [exact Hy|]. now apply IH.
    + intros Hruns. inversion Hruns as [|? ? ? y bob1 ys' ? Hy Hrest]; subst.
      rewrite Hy. apply IH in Hrest. rewrite Hrest. reflexivity.
Qed.

Section Runs.
Variable model : Model.

Lemma record_vertex_run (v : ModelVertexView) (bob : BobState) :
  record_vertex v bob = Ok (tt, registered v bob).
Proof. reflexivity. Qed.

Lemma generic_visit_pin_run (v : ModelVertexView) (bob : BobState) :
  generic_visit_pin model v bob
  = Ok (pin_of_vertex model v, pinned v (pin_of_vertex model v) bob).
Proof. reflexivity. Qed.

Lemma visit_signal_state (v : ModelVertexView) (bob : BobState) :
  visit_signal model v bob
  = Ok (pin_of_vertex model v,
        pinned v (pin_of_vertex model v) (registered v bob)).
Proof. reflexivity. Qed.

(** [target] is bound whenever it is read. *)
Lemma visit_pin_run (v : ModelVertexView) (bob : BobState) :
  visit_pin model v bob
  = if elides model v
    then Ok (None, registered v bob)
    else Ok (Some (pin_of_vertex model v),
             pinned v (pin_of_vertex model v) (registered v bob)).
Proof.
  unfold visit_pin, elides, bind, record_vertex, modify, ret, raise.
  change (get_edges model v mode_in connects_to)
    with (List.filter (inbound v) (es model)).
  change (get_edges model v mode_out connects_to)
    with (List.filter (outbound v) (es model)).
  destruct (Nat.eqb (length (List.filter (inbound v) (es model))
                     + length (List.filter (outbound v) (es model))) 1) eqn:Hlen;
    [|reflexivity].
  apply Nat.eqb_eq in Hlen.
  destruct (sole_target_other_endpoint v (es model) Hlen) as (e & _ & ->).
  cbn [andb].
  destruct (bool_decide (mvv_type model (other_endpoint v e) = signal));
    [|reflexivity].
  destruct (String.eqb (mvv_parent_path model (other_endpoint v e))
                       (mvv_parent_path model v)); reflexivity.
Qed.

Lemma check_instance_of_ok (v : ModelVertexView) (bob : BobState) :
  check_instance_of model v bob = Ok (definition_of model v, checked model v bob).
Proof.
  rewrite check_instance_of_run. unfold definition_of, checked.
  destruct (get_adjacents model v mode_out instance_of) as [|first [|second rest]];
    reflexivity.
Qed.

Section OpenRuns.
Variable visit_fn : ModelVertexView -> M Visited.

Lemma wander_interface_inv (v : ModelVertexView) (bob : BobState)
      (pins : list Pin.t) (bob' : BobState) :
  wander_interface model visit_fn v bob = Ok (pins, bob')
  <-> exists rs,
      runs visit_fn (pin_children model v) bob rs bob'
      /\ splice_pins
           (List.filter (fun x => match x with VNone => false | _ => true end) rs) []
         = Ok pins.
Proof.
  unfold wander_interface, bind, lift. rewrite wander_pin_children. split.
  - destruct (mapM visit_fn (pin_children model v) bob) as [[rs bob1]|] eqn:Hrs;
      [|discriminate].
    destruct (splice_pins _ []) as [ps|] eqn:Hps; [|discriminate].
    intros [= <- <-]. exists rs. split; [now apply mapM_runs|exact Hps].
  - intros (rs & Hrs & Hps). apply mapM_runs in Hrs. rewrite Hrs, Hps. reflexivity.
Qed.

Lemma find_subelements_inv (v : ModelVertexView) (bob : BobState)
      (blocks : list Block.t) (pins : list Pin.t) (bob' : BobState) :
  find_subelements model visit_fn v bob = Ok ((blocks, pins), bob')
  <-> exists rs bob1,
      runs visit_fn (block_children model v) bob rs bob1
      /\ as_blocks rs = Ok blocks
      /\ wander_interface model visit_fn v bob1 = Ok (pins, bob').
Proof.
  unfold find_subelements, bind, lift, ret.
  change (wander model visit_fn v mode_in part_of [component; module])
    with (mapM visit_fn (block_children model v)).
  split.
  - destruct (mapM visit_fn (block_children model v) bob) as [[rs bob1]|] eqn:Hrs;
      [|discriminate].
    destruct (as_blocks rs) as [bs|] eqn:Hbs; [|discriminate].
    destruct (wander_interface model visit_fn v bob1) as [[ps bob2]|] eqn:Hps;
      [|discriminate].
    intros [= <- <- <-]. exists rs, bob1. split; [now apply mapM_runs|auto].
  - intros (rs & bob1 & Hrs & Hbs & Hps). apply mapM_runs in Hrs.
    rewrite Hrs, Hbs, Hps. reflexivity.
Qed.

Lemma generic_visit_block_inv (v : ModelVertexView) (bob : BobState)
      (block : Block.t) (bob' : BobState) :
  generic_visit_block model visit_fn v bob = Ok (block, bob')
  <-> exists blocks pins bob1,
      find_subelements model visit_fn v (entered v bob) = Ok ((blocks, pins), bob1)
      /\ block = Block.mk (mvv_ref model v)
                          (vertex_type_name (mvv_type model v))
                          (mvv_data model v)
                          blocks pins [] (definition_of model v) v
                          (next_oid (checked model v bob1))
      /\ bob' = left_block (mvv_path model v) (checked model v bob1).
Proof.
  unfold generic_visit_block, bind, record_vertex, push_block, modify.
  change (find_subelements model visit_fn v _)
    with (find_subelements model visit_fn v (entered v bob)).
  split.
  - destruct (find_subelements model visit_fn v (entered v bob))
      as [[[blocks pins] bob1]|]; [|discriminate].
    rewrite check_instance_of_ok.
    unfold new_oid, set_block_directory, pop_block, modify, ret. cbn.
    intros [= <- <-]. exists blocks, pins, bob1. auto.
  - intros (blocks & pins & bob1 & -> & -> & ->).
    rewrite check_instance_of_ok. reflexivity.
Qed.

Lemma visit_by_type_inv (v : ModelVertexView) (bob : BobState)
      (r : Visited) (bob' : BobState) :
  visit_by_type model visit_fn v bob = Ok (r, bob')
  <-> match mvv_type model v with
      | component | module =>
          exists b, r = VBlock b
                    /\ generic_visit_block model visit_fn v bob = Ok (b, bob')
      | interface =>
          exists ps, r = VPins (map (prefix_pin model v) ps)
                     /\ wander_interface model visit_fn v bob = Ok (ps, bob')
      | pin =>
          if elides model v
          then r = VNone /\ bob' = registered v bob
          else r = VPin (pin_of_vertex model v)
               /\ bob' = pinned v (pin_of_vertex model v) (registered v bob)
      | signal =>
          r = VPin (pin_of_vertex model v)
          /\ bob' = pinned v (pin_of_vertex model v) (registered v bob)
      | file => False
      end.
Proof.
  unfold visit_by_type, visit_component, visit_module, visit_interface, bind, ret,
    raise.
  destruct (mvv_type model v).
  - split; [discriminate|tauto].
  - destruct (generic_visit_block model visit_fn v bob) as [[b bob1]|]; split.
    + intros [= <- <-]. eauto.
    + intros (b' & -> & [= <- <-]). reflexivity.
    + discriminate.
    + intros (b' & _ & H). discriminate H.
  - destruct (generic_visit_block model visit_fn v bob) as [[b bob1]|]; split.
    + intros [= <- <-]. eauto.
    + intros (b' & -> & [= <- <-]). reflexivity.
    + discriminate.
    + intros (b' & _ & H). discriminate H.
  - destruct (wander_interface model visit_fn v bob) as [[ps bob1]|]; split.
    + intros [= <- <-]. eauto.
    + intros (ps' & -> & [= <- <-]). reflexivity.
    + discriminate.
    + intros (ps' & _ & H). discriminate H.
  - rewrite visit_pin_run. destruct (elides model v); split.
    + intros [= <- <-]. auto.
    + intros [-> ->]. reflexivity.
    + intros [= <- <-]. auto.
    + intros [-> ->]. reflexivity.
  - rewrite visit_signal_state. split.
    + intros [= <- <-]. auto.
    + intros [-> ->]. reflexivity.
Qed.
End OpenRuns.
End Runs.

(** ** What every visit keeps *)

Lemma runs_app_state {A B} (f : A -> M B) (R : BobState -> BobState -> Prop)
      (xs : list A) (bob : BobState) (ys : list B) (bob' : BobState) :
  (forall b, R b b) ->
  (forall b1 b2 b3, R b1 b2 -> R b2 b3 -> R b1 b3) ->
  (forall x b y b', In x xs -> f x b = Ok (y, b') -> R b b') ->
  runs f xs bob ys bob' ->
  R bob bob'.
Proof.
  intros Hrefl Htrans Hf Hruns.
  induction Hruns as [|x xs bob y bob1 ys bob2 Hy _ IH]; [apply Hrefl|].
  eapply Htrans.
  - exact (Hf x bob y bob1 (or_introl eq_refl) Hy).
  - apply IH. intros x0 b y0 b' Hin. apply Hf. now right.
Qed.

Section Frame.
Variable model : Model.
Variable R : BobState -> BobState -> Prop.
Hypothesis R_refl : forall bob, R bob bob.
Hypothesis R_trans : forall b1 b2 b3, R b1 b2 -> R b2 b3 -> R b1 b3.
Hypothesis R_registered : forall v bob, R bob (registered v bob).
Hypothesis R_pinned : forall v p bob, R bob (pinned v p bob).
Hypothesis R_warned : forall msg bob, R bob (warned msg bob).
Hypothesis R_block :
  forall v bob bob1,
    R (entered v bob) bob1 -> R bob (left_block (mvv_path model v) bob1).

Lemma frame_checked (v : ModelVertexView) (bob : BobState) :
  R bob (checked model v bob).
Proof. unfold checked. destruct (Nat.ltb _ _); auto. Qed.

Section Step.
Variable visit_fn : ModelVertexView -> M Visited.
Hypothesis visit_fn_frame :
  forall v bob r bob', visit_fn v bob = Ok (r, bob') -> R bob bob'.

Lemma frame_runs (xs : list ModelVertexView) (bob : BobState)
      (rs : list Visited) (bob' : BobState) :
  runs visit_fn xs bob rs bob' -> R bob bob'.
Proof.
  apply runs_app_state; auto.
  intros x b y b' _. apply visit_fn_frame.
Qed.

Lemma frame_wander_interface (v : ModelVertexView) (bob : BobState)
      (pins : list Pin.t) (bob' : BobState) :
  wander_interface model visit_fn v bob = Ok (pins, bob') -> R bob bob'.
Proof.
  intros Hrun. apply wander_interface_inv in Hrun as (rs & Hrs & _).
  exact (frame_runs _ _ _ _ Hrs).
Qed.

Lemma frame_find_subelements (v : ModelVertexView) (bob : BobState)
      (sub : list Block.t * list Pin.t) (bob' : BobState) :
  find_subelements model visit_fn v bob = Ok (sub, bob') -> R bob bob'.
Proof.
  destruct sub as [blocks pins]. intros Hrun.
  apply find_subelements_inv in Hrun as (rs & bob1 & Hrs & _ & Hpins).
  eapply R_trans; [exact (frame_runs _ _ _ _ Hrs)|].
  exact (frame_wander_interface v bob1 pins bob' Hpins).
Qed.

Lemma frame_generic_visit_block (v : ModelVertexView) (bob : BobState)
      (block : Block.t) (bob' : BobState) :
  generic_visit_block model visit_fn v bob = Ok (block, bob') -> R bob bob'.
Proof.
  intros Hrun.
  apply generic_visit_block_inv in Hrun as (blocks & pins & bob1 & Hsub & _ & ->).
  apply R_block. eapply R_trans.
  - exact (frame_find_subelements v _ _ bob1 Hsub).
  - apply frame_checked.
Qed.

Lemma frame_visit_by_type (v : ModelVertexView) (bob : BobState)
      (r : Visited) (bob' : BobState) :
  visit_by_type model visit_fn v bob = Ok (r, bob') -> R bob bob'.
Proof.
  intros Hrun. apply visit_by_type_inv in Hrun.
  destruct (mvv_type model v).
  - destruct Hrun.
  - destruct Hrun as (b & _ & Hb). exact (frame_generic_visit_block v bob b bob' Hb).
  - destruct Hrun as (b & _ & Hb). exact (frame_generic_visit_block v bob b bob' Hb).
  - destruct Hrun as (ps & _ & Hps). exact (frame_wander_interface v bob ps bob' Hps).
  - destruct (elides model v); destruct Hrun as [_ ->]; eauto.
  - destruct Hrun as [_ ->]. eauto.
Qed.
End Step.

Lemma frame_visit (fuel : nat) :
  forall v bob r bob', visit model fuel v bob = Ok (r, bob') -> R bob bob'.
Proof.
  induction fuel as [|fuel IH]; intros v bob r bob' Hrun; [discriminate|].
  exact (frame_visit_by_type (visit model fuel) IH v bob r bob' Hrun).
Qed.

Lemma frame_root (fuel : nat) (v : ModelVertexView) (bob : BobState)
      (block : Block.t) (bob' : BobState) :
  generic_visit_block model (visit model fuel) v bob = Ok (block, bob') ->
  R bob bob'.
Proof. apply frame_generic_visit_block, frame_visit. Qed.
End Frame.

(** X1. A visit that returns leaves the stack of enclosing blocks as it
    found it, and after a build the stack is empty. *)
Theorem block_stack_restored (model : Model) :
  (forall fuel v bob r bob',
      visit model fuel v bob = Ok (r, bob') -> block_stack bob' = block_stack bob)
  /\ (forall fuel v bob block bob',
        generic_visit_block model (visit model fuel) v bob = Ok (block, bob') ->
        block_stack bob' = block_stack bob)
  /\ (forall (ancestry : Ancestry) fuel main root bob,
        build_with_bob model fuel main = Ok (root, bob) -> block_stack bob = []).
Proof.
  assert (Hblock : forall v bob bob1,
             block_stack bob1 = block_stack (entered v bob) ->
             block_stack (left_block (mvv_path model v) bob1) = block_stack bob).
  { intros v bob bob1 H. cbn. rewrite H. cbn. apply removelast_last. }
  split; [|split].
  - apply (frame_visit model (fun b b' => block_stack b' = block_stack b));
      try (intros; reflexivity); auto; congruence.
  - apply (frame_root model (fun b b' => block_stack b' = block_stack b));
      try (intros; reflexivity); auto; congruence.
  - intros ancestry fuel main root bob Hbuild.
    apply build_with_bob_inv in Hbuild as (visited & heap & Hvisit & _ & _).
    apply (frame_root model (fun b b' => block_stack b' = block_stack b))
      in Hvisit; try (intros; reflexivity); auto; congruence.
Qed.

Lemma block_stack_restored_witness :
  exists block bob',
    generic_visit_block design_two_components (visit design_two_components 10) 0
                        Bob_init
    = Ok (block, bob')
    /\ block_stack bob' = [].
Proof.
  eexists. eexists. split; [vm_compute; reflexivity|].
  eapply (proj1 (proj2 (block_stack_restored design_two_components)) 10 0 Bob_init).
  vm_compute. reflexivity.
Defined.

(** ** The results and the exceptions of a traversal *)

Lemma mapM_raise {A B} (f : A -> M B) (xs : list A) :
  forall bob e,
    mapM f xs bob = Raise e ->
    exists x bob1, In x xs /\ f x bob1 = Raise e.
Proof.
  induction xs as [|x xs IH]; intros bob e; cbn [mapM]; unfold bind, ret;
    [discriminate|].
  destruct (f x bob) as [[y bob1]|e1] eqn:Hy.
  - destruct (mapM f xs bob1) as [[ys bob2]|e2] eqn:Hys; [discriminate|].
    intros [= <-]. destruct (IH bob1 e2 Hys) as (x' & b & Hin & Hx').
    exists x', b. split; [now right|exact Hx'].
  - intros [= <-]. exists x, bob. split; [now left|exact Hy].
Qed.

Lemma runs_Forall {A B} (f : A -> M B) (Q : B -> Prop)
      (xs : list A) (bob : BobState) (ys : list B) (bob' : BobState) :
  (forall x b y b', In x xs -> f x b = Ok (y, b') -> Q y) ->
  runs f xs bob ys bob' ->
  Forall Q ys.
Proof.
  intros Hf Hruns.
  induction Hruns as [|x xs bob y bob1 ys bob2 Hy _ IH]; constructor.
  - exact (Hf x bob y bob1 (or_introl eq_refl) Hy).
  - apply IH. intros x0 b y0 b' Hin. apply Hf. now right.
Qed.

Lemma as_blocks_ok (rs : list Visited) :
  Forall is_block rs -> exists bs, as_blocks rs = Ok bs.
Proof.
  induction 1 as [|r rs [b ->] _ [bs IH]]; cbn; [eauto|].
  rewrite IH. eauto.
Qed.

Section Kinds.
Variable model : Model.

Lemma block_children_types (v : ModelVertexView) :
  Forall (fun a => mvv_type model a ∈ [component; module]) (block_children model v).
Proof.
  apply List.Forall_forall. intros a Ha. apply filter_In in Ha as [_ Ha].
  now apply bool_decide_eq_true_1 in Ha.
Qed.

Lemma block_child_not_file (v c : ModelVertexView) :
  In c (block_children model v) -> mvv_type model c <> file.
Proof.
  intros Hc Hfile.
  pose proof (block_children_types v) as Hty.
  rewrite List.Forall_forall in Hty. specialize (Hty c Hc).
  rewrite Hfile in Hty. apply (bool_decide_eq_true_2 _) in Hty.
  vm_compute in Hty. discriminate Hty.
Qed.

Lemma pin_child_not_file (v c : ModelVertexView) :
  In c (pin_children model v) -> mvv_type model c <> file.
Proof.
  intros Hc Hfile.
  pose proof (pin_children_types model v) as Hty.
  rewrite List.Forall_forall in Hty. specialize (Hty c Hc).
  rewrite Hfile in Hty. apply (bool_decide_eq_true_2 _) in Hty.
  vm_compute in Hty. discriminate Hty.
Qed.

(** The visit of a module or a component returns a block. *)
Lemma visit_is_block (fuel : nat) (v : ModelVertexView) (bob : BobState)
      (r : Visited) (bob' : BobState) :
  mvv_type model v ∈ [component; module] ->
  visit model fuel v bob = Ok (r, bob') ->
  is_block r.
Proof.
  intros Hty Hrun. destruct fuel as [|fuel]; [discriminate|].
  cbn [visit] in Hrun. apply visit_by_type_inv in Hrun.
  apply (bool_decide_eq_true_2 _) in Hty.
  destruct (mvv_type model v); try (vm_compute in Hty; discriminate Hty);
    destruct Hrun as (b & -> & _); now exists b.
Qed.

Lemma runs_blocks (fuel : nat) (v : ModelVertexView) (bob : BobState)
      (rs : list Visited) (bob' : BobState) :
  runs (visit model fuel) (block_children model v) bob rs bob' ->
  exists bs, as_blocks rs = Ok bs.
Proof.
  intros Hruns. apply as_blocks_ok.
  eapply (runs_Forall (visit model fuel)); [|exact Hruns].
  intros x b y b' Hx Hy.
  pose proof (block_children_types v) as Hty.
  rewrite List.Forall_forall in Hty.
  exact (visit_is_block fuel x b y b' (Hty x Hx) Hy).
Qed.

Lemma runs_pins (fuel : nat) (v : ModelVertexView) (bob : BobState)
      (rs : list Visited) (bob' : BobState) :
  runs (visit model fuel) (pin_children model v) bob rs bob' ->
  splice_pins
    (List.filter (fun x => match x with VNone => false | _ => true end) rs) []
  = Ok (concat (map pins_of rs)).
Proof.
  intros Hruns. apply (splice_pins_pins_of rs []).
  eapply (runs_Forall (visit model fuel)); [|exact Hruns].
  intros x b y b' Hx Hy.
  pose proof (pin_children_types model v) as Hty.
  rewrite List.Forall_forall in Hty.
  exact (visit_no_block model fuel x b y b' (Hty x Hx) Hy).
Qed.
End Kinds.

Section Errors.
Variable model : Model.
Variable fuel : nat.
Hypothesis visit_errors :
  forall v bob e,
    mvv_type model v <> file ->
    visit model fuel v bob = Raise e ->
    e = RecursionError.

Lemma wander_interface_errors (v : ModelVertexView) (bob : BobState) (e : Error) :
  wander_interface model (visit model fuel) v bob = Raise e ->
  e = RecursionError.
Proof.
  unfold wander_interface, bind, lift. rewrite wander_pin_children.
  destruct (mapM (visit model fuel) (pin_children model v) bob)
    as [[rs bob1]|e1] eqn:Hrs.
  - apply mapM_runs in Hrs. rewrite (runs_pins model fuel v bob rs bob1 Hrs).
    discriminate.
  - intros [= <-]. apply mapM_raise in Hrs as (x & b & Hx & Hraise).
    exact (visit_errors x b e1 (pin_child_not_file model v x Hx) Hraise).
Qed.

Lemma find_subelements_errors (v : ModelVertexView) (bob : BobState) (e : Error) :
  find_subelements model (visit model fuel) v bob = Raise e ->
  e = RecursionError.
Proof.
  unfold find_subelements, bind, lift, ret.
  change (wander model (visit model fuel) v mode_in part_of [component; module])
    with (mapM (visit model fuel) (block_children model v)).
  destruct (mapM (visit model fuel) (block_children model v) bob)
    as [[rs bob1]|e1] eqn:Hrs.
  - apply mapM_runs in Hrs.
    destruct (runs_blocks model fuel v bob rs bob1 Hrs) as [bs ->].
    destruct (wander_interface model (visit model fuel) v bob1)
      as [[ps bob2]|e2] eqn:Hps; [discriminate|].
    intros [= <-]. exact (wander_interface_errors v bob1 e2 Hps).
  - intros [= <-]. apply mapM_raise in Hrs as (x & b & Hx & Hraise).
    exact (visit_errors x b e1 (block_child_not_file model v x Hx) Hraise).
Qed.

Lemma generic_visit_block_errors (v : ModelVertexView) (bob : BobState) (e : Error) :
  generic_visit_block model (visit model fuel) v bob = Raise e ->
  e = RecursionError.
Proof.
  unfold generic_visit_block, bind, record_vertex, push_block, modify.
  match goal with
  | |- context [find_subelements model (visit model fuel) v ?b] =>
      destruct (find_subelements model (visit model fuel) v b)
        as [[sub bob1]|e1] eqn:Hsub
  end.
  - rewrite check_instance_of_ok. discriminate.
  - intros [= <-]. exact (find_subelements_errors v _ e1 Hsub).
Qed.

Lemma visit_by_type_errors (v : ModelVertexView) (bob : BobState) (e : Error) :
  mvv_type model v <> file ->
  visit_by_type model (visit model fuel) v bob = Raise e ->
  e = RecursionError.
Proof.
  unfold visit_by_type, visit_component, visit_module, visit_interface, bind, ret,
    raise.
  intros Hty. destruct (mvv_type model v); [congruence| | | | |].
  - destruct (generic_visit_block model (visit model fuel) v bob)
      as [[b bob1]|e1] eqn:Hb; [discriminate|].
    intros [= <-]. exact (generic_visit_block_errors v bob e1 Hb).
  - destruct (generic_visit_block model (visit model fuel) v bob)
      as [[b bob1]|e1] eqn:Hb; [discriminate|].
    intros [= <-]. exact (generic_visit_block_errors v bob e1 Hb).
  - destruct (wander_interface model (visit model fuel) v bob)
      as [[ps bob1]|e1] eqn:Hps; [discriminate|].
    intros [= <-]. exact (wander_interface_errors v bob e1 Hps).
  - rewrite visit_pin_run. destruct (elides model v); discriminate.
  - rewrite visit_signal_state. discriminate.
Qed.
End Errors.

Lemma visit_errors (model : Model) (fuel : nat) :
  forall v bob e,
    mvv_type model v <> file ->
    visit model fuel v bob = Raise e ->
    e = RecursionError.
Proof.
  induction fuel as [|fuel IH]; intros v bob e Hty Hrun.
  - cbn in Hrun. unfold raise in Hrun. congruence.
  - exact (visit_by_type_errors model fuel IH v bob e Hty Hrun).
Qed.

Lemma root_errors (model : Model) (fuel : nat) (v : ModelVertexView)
      (bob : BobState) (e : Error) :
  generic_visit_block model (visit model fuel) v bob = Raise e ->
  e = RecursionError.
Proof. apply generic_visit_block_errors, visit_errors. Qed.

(** ** The depth of the stack *)

Section Deeper.
Variable model : Model.
Variables shallow deep : ModelVertexView -> M Visited.
Hypothesis deepens :
  forall v bob x, shallow v bob = Ok x -> deep v bob = Ok x.

Lemma runs_deepen (xs : list ModelVertexView) (bob : BobState)
      (rs : list Visited) (bob' : BobState) :
  runs shallow xs bob rs bob' -> runs deep xs bob rs bob'.
Proof.
  induction 1 as [|x xs bob y bob1 ys bob2 Hy _ IH]; econstructor; eauto.
Qed.

Lemma wander_interface_deepen (v : ModelVertexView) (bob : BobState)
      (x : list Pin.t * BobState) :
  wander_interface model shallow v bob = Ok x ->
  wander_interface model deep v bob = Ok x.
Proof.
  destruct x as [pins bob']. rewrite !wander_interface_inv.
  intros (rs & Hrs & Hps). exists rs. split; [now apply runs_deepen|exact Hps].
Qed.

Lemma generic_visit_block_deepen (v : ModelVertexView) (bob : BobState)
      (x : Block.t * BobState) :
  generic_visit_block model shallow v bob = Ok x ->
  generic_visit_block model deep v bob = Ok x.
Proof.
  destruct x as [block bob']. rewrite !generic_visit_block_inv.
  intros (blocks & pins & bob1 & Hsub & Hblock & Hbob).
  exists blocks, pins, bob1. split; [|auto].
  apply find_subelements_inv in Hsub as (rs & bob2 & Hrs & Hbs & Hps).
  apply find_subelements_inv. exists rs, bob2.
  split; [now apply runs_deepen|]. split; [exact Hbs|].
  exact (wander_interface_deepen v bob2 _ Hps).
Qed.

Lemma visit_by_type_deepen (v : ModelVertexView) (bob : BobState)
      (x : Visited * BobState) :
  visit_by_type model shallow v bob = Ok x ->
  visit_by_type model deep v bob = Ok x.
Proof.
  destruct x as [r bob']. rewrite !visit_by_type_inv.
  destruct (mvv_type model v); auto.
  - intros (b & Hr & Hb). exists b. split; [exact Hr|].
    exact (generic_visit_block_deepen v bob _ Hb).
  - intros (b & Hr & Hb). exists b. split; [exact Hr|].
    exact (generic_visit_block_deepen v bob _ Hb).
  - intros (ps & Hr & Hps). exists ps. split; [exact Hr|].
    exact (wander_interface_deepen v bob _ Hps).
Qed.
End Deeper.

Lemma visit_deeper (model : Model) (fuel fuel' : nat) :
  fuel <= fuel' ->
  forall v bob x, visit model fuel v bob = Ok x -> visit model fuel' v bob = Ok x.
Proof.
  intros Hle. revert fuel' Hle.
  induction fuel as [|fuel IH]; intros fuel' Hle v bob x Hrun; [discriminate|].
  destruct fuel' as [|fuel']; [lia|].
  cbn [visit] in *.
  eapply visit_by_type_deepen; [|exact Hrun].
  apply IH. lia.
Qed.

(** X3. The result of a build does not depend on how deep the stack may
    grow, once it may grow deep enough: a build that returns with some
    bound returns the same tree, and leaves the same builder, with every
    larger one. *)
Theorem build_deeper `{ancestry : Ancestry} (model : Model)
        (fuel fuel' : nat) (main : ModelVertexView) (root : Block.t) (bob : BobState) :
  fuel <= fuel' ->
  build_with_bob model fuel main = Ok (root, bob) ->
  build_with_bob model fuel' main = Ok (root, bob).
Proof.
  intros Hle. unfold build_with_bob.
  destruct (generic_visit_block model (visit model fuel) main Bob_init)
    as [[visited bob0]|] eqn:Hvisit; [|discriminate].
  rewrite (generic_visit_block_deepen model (visit model fuel) (visit model fuel')
             (visit_deeper model fuel fuel' Hle) main Bob_init _ Hvisit).
  auto.
Qed.

Lemma build_deeper_witness :
  exists root bob,
    build_with_bob design_two_components 2 0 = Ok (root, bob)
    /\ build_with_bob design_two_components 7 0 = Ok (root, bob).
Proof.
  eexists. eexists. split; [vm_compute; reflexivity|].
  apply (build_deeper design_two_components 2 7 0); [lia|].
  vm_compute. reflexivity.
Defined.

(** ** Containment without and with cycles *)

Lemma runs_total {A B} (f : A -> M B) (xs : list A) :
  (forall x, In x xs -> forall bob, exists y bob', f x bob = Ok (y, bob')) ->
  forall bob, exists ys bob', runs f xs bob ys bob'.
Proof.
  induction xs as [|x xs IH]; intros Hf bob.
  - exists [], bob. constructor.
  - destruct (Hf x (or_introl eq_refl) bob) as (y & bob1 & Hy).
    destruct (IH (fun x0 Hin => Hf x0 (or_intror Hin)) bob1) as (ys & bob2 & Hys).
    exists (y :: ys), bob2. econstructor; eauto.
Qed.

Section Ranked.
Variable model : Model.
Variable rank : ModelVertexView -> nat.
Hypothesis rank_decreases :
  forall v c, In c (get_adjacents model v mode_in part_of) -> rank c < rank v.

Lemma block_child_rank (v c : ModelVertexView) :
  In c (block_children model v) -> rank c < rank v.
Proof. intros Hc. apply filter_In in Hc as [Hc _]. now apply rank_decreases. Qed.

Lemma pin_child_rank (v c : ModelVertexView) :
  In c (pin_children model v) -> rank c < rank v.
Proof. intros Hc. apply filter_In in Hc as [Hc _]. now apply rank_decreases. Qed.

Section Below.
Variable fuel : nat.
Variable v : ModelVertexView.
Hypothesis children_return :
  forall c,
    rank c < rank v -> mvv_type model c <> file ->
    forall bob, exists r bob', visit model fuel c bob = Ok (r, bob').

Lemma wander_interface_returns (bob : BobState) :
  exists pins bob', wander_interface model (visit model fuel) v bob = Ok (pins, bob').
Proof.
  destruct (runs_total (visit model fuel) (pin_children model v)) with (bob := bob)
    as (rs & bob' & Hrs).
  { intros c Hc. apply children_return.
    - now apply pin_child_rank.
    - exact (pin_child_not_file model v c Hc). }
  exists (concat (map pins_of rs)), bob'.
  apply wander_interface_inv. exists rs. split; [exact Hrs|].
  exact (runs_pins model fuel v bob rs bob' Hrs).
Qed.

Lemma generic_visit_block_returns (bob : BobState) :
  exists block bob',
    generic_visit_block model (visit model fuel) v bob = Ok (block, bob').
Proof.
  destruct (runs_total (visit model fuel) (block_children model v))
    with (bob := entered v bob) as (rs & bob1 & Hrs).
  { intros c Hc. apply children_return.
    - now apply block_child_rank.
    - exact (block_child_not_file model v c Hc). }
  destruct (runs_blocks model fuel v _ rs bob1 Hrs) as [bs Hbs].
  destruct (wander_interface_returns bob1) as (pins & bob2 & Hpins).
  eexists. eexists. apply generic_visit_block_inv.
  exists bs, pins, bob2. split; [|split; reflexivity].
  apply find_subelements_inv. exists rs, bob1. auto.
Qed.
End Below.

Lemma visit_returns (fuel : nat) :
  forall v,
    rank v < fuel -> mvv_type model v <> file ->
    forall bob, exists r bob', visit model fuel v bob = Ok (r, bob').
Proof.
  induction fuel as [|fuel IH]; intros v Hrank Hty bob; [lia|].
  assert (Hchildren :
            forall c, rank c < rank v -> mvv_type model c <> file ->
                      forall b, exists r b', visit model fuel c b = Ok (r, b')).
  { intros c Hc. apply IH. lia. }
  cbn [visit].
  unfold visit_by_type, visit_component, visit_module, visit_interface, bind, ret.
  destruct (mvv_type model v) eqn:Htype; [congruence| | | | |].
  - destruct (generic_visit_block_returns fuel v Hchildren bob) as (b & bob' & ->).
    eauto.
  - destruct (generic_visit_block_returns fuel v Hchildren bob) as (b & bob' & ->).
    eauto.
  - destruct (wander_interface_returns fuel v Hchildren bob) as (ps & bob' & ->).
    eauto.
  - rewrite visit_pin_run. destruct (elides model v); eauto.
  - rewrite visit_signal_state. eauto.
Qed.

Lemma root_returns (main : ModelVertexView) (bob : BobState) :
  exists block bob',
    generic_visit_block model (visit model (rank main)) main bob = Ok (block, bob').
Proof.
  apply generic_visit_block_returns. intros c Hc. now apply visit_returns.
Qed.
End Ranked.

(** X4. On a containment hierarchy without cycles, where some rank goes
    down along every part_of edge, the traversal of any root returns from
    any builder once the stack may grow as deep as the rank of the root:
    it does not exhaust the stack. *)
Theorem acyclic_traversal_returns (model : Model) (rank : ModelVertexView -> nat)
        (fuel : nat) (main : ModelVertexView) (bob : BobState) :
  (forall v c, In c (get_adjacents model v mode_in part_of) -> rank c < rank v) ->
  rank main <= fuel ->
  exists block bob',
    generic_visit_block model (visit model fuel) main bob = Ok (block, bob').
Proof.
  intros Hrank Hfuel.
  destruct (root_returns model rank Hrank main bob) as (block & bob' & Hrun).
  exists block, bob'.
  exact (generic_visit_block_deepen model (visit model (rank main)) (visit model fuel)
           (visit_deeper model (rank main) fuel Hfuel) main bob (block, bob') Hrun).
Qed.

Lemma acyclic_traversal_returns_witness :
  exists block bob',
    generic_visit_block design_two_components (visit design_two_components 5)
                        0 Bob_init
    = Ok (block, bob').
Proof.
  apply (acyclic_traversal_returns design_two_components rank_two_components 5 0
           Bob_init).
  - intros v c Hin.
    apply in_map_iff in Hin as (e & <- & He).
    apply filter_In in He as [He Hf].
    apply andb_prop in Hf as [Hty Hf].
    apply bool_decide_eq_true_1 in Hty.
    apply Nat.eqb_eq in Hf. subst v.
    cbn in He.
    repeat (destruct He as [<-|He]; [try discriminate Hty; cbn; lia|]).
    destruct He.
  - cbn. lia.
Defined.

Lemma runs_In {A B} (f : A -> M B) (xs : list A) (bob : BobState)
      (ys : list B) (bob' : BobState) (x : A) :
  runs f xs bob ys bob' ->
  In x xs ->
  exists b y b', f x b = Ok (y, b').
Proof.
  induction 1 as [|x0 xs bob y bob1 ys bob2 Hy _ IH]; intros Hin; [destruct Hin|].
  destruct Hin as [->|Hin]; eauto.
Qed.

Section Cyclic.
Variable model : Model.
Variable C : ModelVertexView -> Prop.
Hypothesis C_goes_on :
  forall v, C v -> exists c, In c (visited_children model v) /\ C c.

Lemma C_not_file (v : ModelVertexView) : C v -> mvv_type model v <> file.
Proof.
  intros Hv Hfile. destruct (C_goes_on v Hv) as (c & Hc & _).
  unfold visited_children in Hc. rewrite Hfile in Hc. destruct Hc.
Qed.

Section Step.
Variable fuel : nat.
Hypothesis never_returns :
  forall v, C v -> forall bob x, visit model fuel v bob <> Ok x.

Lemma wander_interface_never (v c : ModelVertexView) (bob : BobState)
      (x : list Pin.t * BobState) :
  In c (pin_children model v) -> C c ->
  wander_interface model (visit model fuel) v bob <> Ok x.
Proof.
  intros Hc HC Hrun. destruct x as [pins bob'].
  apply wander_interface_inv in Hrun as (rs & Hrs & _).
  destruct (runs_In _ _ _ _ _ c Hrs Hc) as (b & y & b' & Hy).
  exact (never_returns c HC b _ Hy).
Qed.

Lemma generic_visit_block_never (v c : ModelVertexView) (bob : BobState)
      (x : Block.t * BobState) :
  In c (block_children model v ++ pin_children model v) -> C c ->
  generic_visit_block model (visit model fuel) v bob <> Ok x.
Proof.
  intros Hc HC Hrun. destruct x as [block bob'].
  apply generic_visit_block_inv in Hrun as (blocks & pins & bob1 & Hsub & _).
  apply find_subelements_inv in Hsub as (rs & bob2 & Hrs & _ & Hpins).
  apply in_app_or in Hc as [Hc|Hc].
  - destruct (runs_In _ _ _ _ _ c Hrs Hc) as (b & y & b' & Hy).
    exact (never_returns c HC b _ Hy).
  - exact (wander_interface_never v c bob2 _ Hc HC Hpins).
Qed.
End Step.

Lemma visit_never_returns (fuel : nat) :
  forall v, C v -> forall bob x, visit model fuel v bob <> Ok x.
Proof.
  induction fuel as [|fuel IH]; intros v Hv bob x; [discriminate|].
  destruct x as [r bob']. cbn [visit]. intros Hrun.
  apply visit_by_type_inv in Hrun.
  destruct (C_goes_on v Hv) as (c & Hc & HC).
  unfold visited_children in Hc.
  destruct (mvv_type model v); try (destruct Hc; fail).
  - destruct Hrun as (b & _ & Hb).
    exact (generic_visit_block_never fuel IH v c bob _ Hc HC Hb).
  - destruct Hrun as (b & _ & Hb).
    exact (generic_visit_block_never fuel IH v c bob _ Hc HC Hb).
  - destruct Hrun as (ps & _ & Hps).
    exact (wander_interface_never fuel IH v c bob _ Hc HC Hps).
Qed.
End Cyclic.

(** X5. Containment that goes in a circle exhausts the stack: when the
    vertices of some set each have a child in the set among the children
    their visit goes on to, the visit of each of them, and the build of
    every root with such a child, fails with the recursion error however
    deep the stack may grow. *)
Theorem cyclic_containment_overflows `{ancestry : Ancestry} (model : Model)
        (C : ModelVertexView -> Prop) :
  (forall v, C v -> exists c, In c (visited_children model v) /\ C c) ->
  (forall v fuel bob, C v -> visit model fuel v bob = Raise RecursionError)
  /\ (forall main c fuel,
        In c (block_children model main ++ pin_children model main) -> C c ->
        build model fuel main = Raise RecursionError).
Proof.
  intros Hcycle. split.
  - intros v fuel bob Hv.
    destruct (visit model fuel v bob) as [x|e] eqn:Hrun.
    + destruct (visit_never_returns model C Hcycle fuel v Hv bob x Hrun).
    + f_equal.
      exact (visit_errors model fuel v bob e (C_not_file model C Hcycle v Hv) Hrun).
  - intros main c fuel Hc HC. unfold build, build_with_bob.
    destruct (generic_visit_block model (visit model fuel) main Bob_init)
      as [x|e] eqn:Hrun.
    + destruct (generic_visit_block_never model C fuel
                  (visit_never_returns model C Hcycle fuel) main c Bob_init x
                  Hc HC Hrun).
    + f_equal. exact (root_errors model fuel main Bob_init e Hrun).
Qed.

Lemma cyclic_containment_overflows_witness :
  build design_cycle 40 0 = Raise RecursionError.
Proof.
  apply (proj2 (cyclic_containment_overflows design_cycle (fun v => v = 1 \/ v = 2)
                  ltac:(intros v [-> | ->];
                        [exists 2|exists 1]; split; vm_compute; tauto))
               0 1 40).
  - vm_compute. tauto.
  - left. reflexivity.
Defined.

(** ** The tree and the graph *)

Section Faithful.
Variable model : Model.

Lemma runs_sources (f : ModelVertexView -> M Visited) (xs : list ModelVertexView)
      (bob : BobState) (rs : list Visited) (bob' : BobState) :
  (forall x b y b', In x xs -> f x b = Ok (y, b') -> made_of x y) ->
  runs f xs bob rs bob' ->
  forall bs, as_blocks rs = Ok bs -> map Block.source bs = xs.
Proof.
  intros Hf Hruns.
  induction Hruns as [|x xs bob y bob1 ys bob2 Hy _ IH]; intros bs Hbs; cbn in Hbs.
  - injection Hbs as <-. reflexivity.
  - destruct y as [| |b|]; try discriminate.
    destruct (as_blocks ys) as [bs'|]; [|discriminate].
    injection Hbs as <-. cbn [map]. f_equal.
    + exact (Hf x bob (VBlock b) bob1 (or_introl eq_refl) Hy b eq_refl).
    + apply IH; [|reflexivity]. intros x0 b0 y0 b0' Hin. apply Hf. now right.
Qed.

Lemma runs_concat_Forall (f : ModelVertexView -> M Visited) (Q : Block.t -> Prop)
      (xs : list ModelVertexView) (bob : BobState) (rs : list Visited)
      (bob' : BobState) :
  (forall x b y b', In x xs -> f x b = Ok (y, b') -> Forall Q (visited_blocks y)) ->
  runs f xs bob rs bob' ->
  Forall Q (concat (map visited_blocks rs)).
Proof.
  intros Hf Hruns.
  induction Hruns as [|x xs bob y bob1 ys bob2 Hy _ IH]; [constructor|].
  cbn [map concat]. apply List.Forall_app. split.
  - exact (Hf x bob y bob1 (or_introl eq_refl) Hy).
  - apply IH. intros x0 b0 y0 b0' Hin. apply Hf. now right.
Qed.

Section Step.
Variable visit_fn : ModelVertexView -> M Visited.
Hypothesis visit_fn_faithful :
  forall v bob r bob',
    visit_fn v bob = Ok (r, bob') ->
    Forall (faithful model) (visited_blocks r) /\ made_of v r.

Lemma generic_visit_block_faithful (v : ModelVertexView) (bob : BobState)
      (block : Block.t) (bob' : BobState) :
  generic_visit_block model visit_fn v bob = Ok (block, bob') ->
  Forall (faithful model) (subblocks block) /\ Block.source block = v.
Proof.
  intros Hrun.
  apply generic_visit_block_inv in Hrun as (blocks & pins & bob1 & Hsub & -> & _).
  apply find_subelements_inv in Hsub as (rs & bob2 & Hrs & Hbs & _).
  split; [|reflexivity].
  cbn [subblocks]. constructor.
  - unfold faithful. cbn. repeat split.
    eapply runs_sources; [|exact Hrs|exact Hbs].
    intros x b y b' _ Hy. exact (proj2 (visit_fn_faithful x b y b' Hy)).
  - rewrite <- (as_blocks_blocks rs blocks Hbs).
    eapply runs_concat_Forall; [|exact Hrs].
    intros x b y b' _ Hy. exact (proj1 (visit_fn_faithful x b y b' Hy)).
Qed.

Lemma visit_by_type_faithful (v : ModelVertexView) (bob : BobState)
      (r : Visited) (bob' : BobState) :
  visit_by_type model visit_fn v bob = Ok (r, bob') ->
  Forall (faithful model) (visited_blocks r) /\ made_of v r.
Proof.
  intros Hrun. apply visit_by_type_inv in Hrun.
  destruct (mvv_type model v).
  - destruct Hrun.
  - destruct Hrun as (b & -> & Hb).
    destruct (generic_visit_block_faithful v bob b bob' Hb) as [Hf Hs].
    split; [exact Hf|]. intros b' [= <-]. exact Hs.
  - destruct Hrun as (b & -> & Hb).
    destruct (generic_visit_block_faithful v bob b bob' Hb) as [Hf Hs].
    split; [exact Hf|]. intros b' [= <-]. exact Hs.
  - destruct Hrun as (ps & -> & _). split; [constructor|discriminate].
  - destruct (elides model v); destruct Hrun as [-> _];
      (split; [constructor|discriminate]).
  - destruct Hrun as [-> _]. split; [constructor|discriminate].
Qed.
End Step.

Lemma visit_faithful (fuel : nat) :
  forall v bob r bob',
    visit model fuel v bob = Ok (r, bob') ->
    Forall (faithful model) (visited_blocks r) /\ made_of v r.
Proof.
  induction fuel as [|fuel IH]; intros v bob r bob' Hrun; [discriminate|].
  exact (visit_by_type_faithful (visit model fuel) IH v bob r bob' Hrun).
Qed.

Lemma faithful_with_links (heap : gmap nat (list Link.t)) (b : Block.t) :
  faithful model b -> faithful model (with_links heap b).
Proof.
  destruct b as [name type fields blocks pins links inst src oid].
  unfold faithful. cbn. intros (Hn & Ht & Hf & Hc). repeat split; auto.
  rewrite map_map. rewrite <- Hc. apply map_ext. intros c. apply source_with_links.
Qed.

Lemma faithful_set_instance_of (b : Block.t) (p : option string) :
  faithful model b -> faithful model (set_instance_of b p).
Proof. destruct b. unfold faithful. cbn. auto. Qed.
End Faithful.

(** X6. Every block of the tree that a build returns carries the local
    name, the name of the type and the field mapping of the vertex it is
    made of, and has one child block for each module or component that is
    a part of that vertex, in the order of the part_of edges; the root is
    made of the root vertex. *)
Theorem built_tree_mirrors_graph `{ancestry : Ancestry} (model : Model)
        (fuel : nat) (main : ModelVertexView) (root : Block.t) (bob : BobState) :
  build_with_bob model fuel main = Ok (root, bob) ->
  Block.source root = main
  /\ forall b,
      In b (subblocks root) ->
      Block.name b = mvv_ref model (Block.source b)
      /\ Block.type b = vertex_type_name (mvv_type model (Block.source b))
      /\ Block.fields b = mvv_data model (Block.source b)
      /\ map Block.source (Block.blocks b) = block_children model (Block.source b).
Proof.
  intros Hbuild.
  apply build_with_bob_inv in Hbuild as (visited & heap & Hvisit & _ & ->).
  destruct (generic_visit_block_faithful model (visit model fuel)
              (visit_faithful model fuel) main Bob_init visited bob Hvisit)
    as [Hfaithful Hsource].
  split.
  - rewrite source_with_links, source_set_instance_of. exact Hsource.
  - intros b Hb.
    rewrite subblocks_with_links, subblocks_set_instance_of in Hb.
    apply in_map_iff in Hb as (b0 & <- & Hb0).
    apply faithful_with_links.
    rewrite List.Forall_forall in Hfaithful.
    destruct Hb0 as [<-|Hb0].
    + apply faithful_set_instance_of, Hfaithful.
      rewrite subblocks_head. now left.
    + apply Hfaithful. rewrite subblocks_head. now right.
Qed.

Lemma built_tree_mirrors_graph_witness :
  exists root bob,
    build_with_bob design_two_components 10 0 = Ok (root, bob)
    /\ Block.source root = 0.
Proof.
  eexists. eexists. split; [vm_compute; reflexivity|].
  eapply proj1, (built_tree_mirrors_graph design_two_components 10 0).
  vm_compute. reflexivity.
Defined.

(** ** The registry, the directory and the blocks *)

Lemma keys_kept_visit (model : Model) (fuel : nat) :
  forall v bob r bob', visit model fuel v bob = Ok (r, bob') -> keys_kept bob bob'.
Proof.
  apply (frame_visit model keys_kept); unfold keys_kept; auto.
  intros v bob bob1 Hkept p Hp. cbn. rewrite lookup_insert.
  destruct (decide (mvv_path model v = p)); [eauto|]. apply Hkept. exact Hp.
Qed.

Section Accounting.
Variable model : Model.
Variable fuel : nat.
Hypothesis visit_accounts :
  forall v bob r bob',
    visit model fuel v bob = Ok (r, bob') ->
    Forall (indexed model bob') (visited_blocks r)
    /\ accounted model bob (visited_blocks r) bob'.

Lemma indexed_kept (bob bob' : BobState) (bs : list Block.t) :
  keys_kept bob bob' ->
  Forall (indexed model bob) bs -> Forall (indexed model bob') bs.
Proof.
  intros Hkept. apply List.Forall_impl. intros b. apply Hkept.
Qed.

Lemma runs_keys_kept (xs : list ModelVertexView) (bob : BobState)
      (rs : list Visited) (bob' : BobState) :
  runs (visit model fuel) xs bob rs bob' -> keys_kept bob bob'.
Proof.
  apply runs_app_state.
  - intros b p Hp. exact Hp.
  - intros b1 b2 b3 H12 H23 p Hp. apply H23, H12, Hp.
  - intros x b y b' _. apply keys_kept_visit.
Qed.

Lemma runs_accounts (xs : list ModelVertexView) (bob : BobState)
      (rs : list Visited) (bob' : BobState) :
  runs (visit model fuel) xs bob rs bob' ->
  Forall (indexed model bob') (concat (map visited_blocks rs))
  /\ accounted model bob (concat (map visited_blocks rs)) bob'.
Proof.
  induction 1 as [|x xs bob y bob1 ys bob2 Hy Hrest [IHi IHa]].
  - split; [constructor|]. intros x Hx. now left.
  - destruct (visit_accounts x bob y bob1 Hy) as [Hi Ha].
    cbn [map concat]. split.
    + apply List.Forall_app. split; [|exact IHi].
      exact (indexed_kept bob1 bob2 _ (runs_keys_kept xs bob1 ys bob2 Hrest) Hi).
    + intros z Hz. destruct (IHa z Hz) as [Hz1|[?|[?|(b & Hb & Hs)]]]; auto.
      * destruct (Ha z Hz1) as [?|[?|[?|(b & Hb & Hs)]]]; auto.
        right. right. right. exists b. split; [|exact Hs].
        apply in_or_app. now left.
      * right. right. right. exists b. split; [|exact Hs].
        apply in_or_app. now right.
Qed.

Lemma wander_interface_accounts (v : ModelVertexView) (bob : BobState)
      (pins : list Pin.t) (bob' : BobState) :
  wander_interface model (visit model fuel) v bob = Ok (pins, bob') ->
  keys_kept bob bob' /\ accounted model bob [] bob'.
Proof.
  intros Hrun. apply wander_interface_inv in Hrun as (rs & Hrs & Hps).
  split; [exact (runs_keys_kept _ bob rs bob' Hrs)|].
  destruct (runs_accounts _ bob rs bob' Hrs) as [_ Ha].
  apply splice_pins_no_block, filter_no_block, no_block_no_blocks in Hps.
  now rewrite Hps in Ha.
Qed.

Lemma generic_visit_block_accounts (v : ModelVertexView) (bob : BobState)
      (block : Block.t) (bob' : BobState) :
  generic_visit_block model (visit model fuel) v bob = Ok (block, bob') ->
  Forall (indexed model bob') (subblocks block)
  /\ accounted model bob (subblocks block) bob'.
Proof.
  intros Hrun.
  apply generic_visit_block_inv in Hrun as (blocks & pins & bob1 & Hsub & -> & ->).
  apply find_subelements_inv in Hsub as (rs & bob2 & Hrs & Hbs & Hpins).
  destruct (runs_accounts _ _ rs bob2 Hrs) as [Hi Ha].
  destruct (wander_interface_accounts v bob2 pins bob1 Hpins) as [Hk Hap].
  rewrite (as_blocks_blocks rs blocks Hbs) in Hi, Ha.
  cbn [subblocks]. split.
  - constructor.
    + unfold indexed. cbn. rewrite lookup_insert.
      rewrite decide_True by reflexivity. eauto.
    + eapply List.Forall_impl; [|exact Hi]. intros b Hb. unfold indexed in *.
      cbn. rewrite lookup_insert.
      destruct (decide (mvv_path model v = mvv_path model (Block.source b)));
        [eauto|].
      assert (Hsame : block_directory_by_path (checked model v bob1)
                      = block_directory_by_path bob1).
      { unfold checked. now destruct (Nat.ltb _ _). }
      rewrite Hsame. apply Hk, Hb.
  - intros x Hx.
    assert (Hreg : all_verticies (checked model v bob1) = all_verticies bob1).
    { unfold checked. now destruct (Nat.ltb _ _). }
    cbn in Hx. rewrite Hreg in Hx.
    destruct (Hap x Hx) as [Hx2|[?|[?|(b & [] & _)]]]; auto.
    destruct (Ha x Hx2) as [Hx0|[?|[?|(b & Hb & Hs)]]]; auto.
    + cbn in Hx0. apply in_app_or in Hx0 as [?|[<-|[]]]; auto.
      right. right. right. eexists. split; [left; reflexivity|reflexivity].
    + right. right. right. exists b. split; [now right|exact Hs].
Qed.

Lemma visit_by_type_accounts (v : ModelVertexView) (bob : BobState)
      (r : Visited) (bob' : BobState) :
  visit_by_type model (visit model fuel) v bob = Ok (r, bob') ->
  Forall (indexed model bob') (visited_blocks r)
  /\ accounted model bob (visited_blocks r) bob'.
Proof.
  intros Hrun. apply visit_by_type_inv in Hrun.
  destruct (mvv_type model v) eqn:Hty.
  - destruct Hrun.
  - destruct Hrun as (b & -> & Hb). exact (generic_visit_block_accounts v bob b bob' Hb).
  - destruct Hrun as (b & -> & Hb). exact (generic_visit_block_accounts v bob b bob' Hb).
  - destruct Hrun as (ps & -> & Hps). split; [constructor|].
    exact (proj2 (wander_interface_accounts v bob ps bob' Hps)).
  - assert (Hreg : all_verticies bob' = all_verticies bob ++ [v]
                   /\ visited_blocks r = []).
    { destruct (elides model v); destruct Hrun as [-> ->]; auto. }
    destruct Hreg as [Hreg ->]. split; [constructor|].
    intros x Hx. rewrite Hreg in Hx.
    apply in_app_or in Hx as [?|[<-|[]]]; auto.
  - destruct Hrun as [-> ->]. split; [constructor|].
    intros x Hx. cbn in Hx. apply in_app_or in Hx as [?|[<-|[]]]; auto.
Qed.
End Accounting.

Lemma visit_accounts (model : Model) (fuel : nat) :
  forall v bob r bob',
    visit model fuel v bob = Ok (r, bob') ->
    Forall (indexed model bob') (visited_blocks r)
    /\ accounted model bob (visited_blocks r) bob'.
Proof.
  induction fuel as [|fuel IH]; intros v bob r bob' Hrun; [discriminate|].
  exact (visit_by_type_accounts model fuel IH v bob r bob' Hrun).
Qed.

Lemma root_accounts (model : Model) (fuel : nat) (main : ModelVertexView)
      (visited : Block.t) (bob : BobState) :
  generic_visit_block model (visit model fuel) main Bob_init = Ok (visited, bob) ->
  forall x,
    In x (all_verticies bob) ->
    mvv_type model x = pin
    \/ mvv_type model x = signal
    \/ exists b,
        In b (subblocks visited) /\ Block.source b = x
        /\ is_Some (block_directory_by_path bob !! mvv_path model x).
Proof.
  intros Hvisit x Hx.
  destruct (generic_visit_block_accounts model fuel (visit_accounts model fuel)
              main Bob_init visited bob Hvisit) as [Hi Ha].
  destruct (Ha x Hx) as [[]|[?|[?|(b & Hb & Hs)]]]; auto.
  right. right. exists b. split; [exact Hb|]. split; [exact Hs|].
  rewrite List.Forall_forall in Hi. rewrite <- Hs. exact (Hi b Hb).
Qed.

(** X7. What a traversal registers: every vertex in the registry is a pin,
    a signal, or a vertex made into a block of the tree, and such a vertex
    is the root, a module or a component and has an entry in the directory
    under its path. No interface below the root is registered. *)
Theorem registry_contents (model : Model) (fuel : nat) (main : ModelVertexView)
        (visited : Block.t) (bob : BobState) (x : ModelVertexView) :
  generic_visit_block model (visit model fuel) main Bob_init = Ok (visited, bob) ->
  In x (all_verticies bob) ->
  mvv_type model x = pin
  \/ mvv_type model x = signal
  \/ ((x = main \/ mvv_type model x = module \/ mvv_type model x = component)
      /\ (exists b, In b (subblocks visited) /\ Block.source b = x)
      /\ is_Some (block_directory_by_path bob !! mvv_path model x)).
Proof.
  intros Hvisit Hx.
  destruct (root_accounts model fuel main visited bob Hvisit x Hx)
    as [?|[?|(b & Hb & Hs & Hdir)]]; auto.
  right. right. split; [|split; [eauto|exact Hdir]].
  rewrite subblocks_head in Hb. destruct Hb as [<-|Hb].
  - left. rewrite <- Hs.
    exact (generic_visit_block_source model (visit model fuel) main Bob_init
             visited bob Hvisit).
  - right.
    pose proof (generic_visit_block_kinds model (visit model fuel)
                  (visit_kinds model fuel) main Bob_init visited bob Hvisit) as Hk.
    rewrite List.Forall_forall in Hk. specialize (Hk b Hb).
    unfold block_kind in Hk. now rewrite Hs in Hk.
Qed.

Lemma registry_contents_witness :
  exists visited bob,
    generic_visit_block design_nested_interfaces (visit design_nested_interfaces 10)
                        0 Bob_init
    = Ok (visited, bob)
    /\ In 4 (all_verticies bob)
    /\ is_Some (block_directory_by_path bob !! "M.C").
Proof.
  eexists. eexists.
  assert (Hvisit : generic_visit_block design_nested_interfaces
                     (visit design_nested_interfaces 10) 0 Bob_init = Ok (_, _))
    by (vm_compute; reflexivity).
  split; [exact Hvisit|]. split; [cbn; tauto|].
  destruct (registry_contents design_nested_interfaces 10 0 _ _ 4 Hvisit)
    as [Hpin|[Hsig|(_ & _ & Hdir)]].
  - cbn. tauto.
  - discriminate Hpin.
  - discriminate Hsig.
  - exact Hdir.
Defined.

(** X8. A build returns whenever the traversal does and the least common
    ancestor of every connects_to edge with registered endpoints is itself
    in the registry and is neither a pin nor a signal: such a vertex was
    made into a block, and the directory has it. *)
Theorem build_returns `{ancestry : Ancestry} (model : Model) (fuel : nat)
        (main : ModelVertexView) (visited : Block.t) (bob : BobState) :
  generic_visit_block model (visit model fuel) main Bob_init = Ok (visited, bob) ->
  (forall c,
      In c (connections model) ->
      eligible (list_to_set (all_verticies bob)) c = true ->
      In (lca_of model c) (all_verticies bob)
      /\ mvv_type model (lca_of model c) <> pin
      /\ mvv_type model (lca_of model c) <> signal) ->
  exists root, build_with_bob model fuel main = Ok (root, bob).
Proof.
  intros Hvisit Hlca.
  destruct (link_connections_returns model bob (list_to_set (all_verticies bob))
              (connections model)) with (heap := (∅ : gmap nat (list Link.t)))
    as [heap Hpass].
  - intros c Hc Hel. destruct (Hlca c Hc Hel) as (Hreg & Hpin & Hsig).
    destruct (root_accounts model fuel main visited bob Hvisit _ Hreg)
      as [?|[?|(b & _ & _ & Hdir)]]; [contradiction|contradiction|exact Hdir].
  - unfold build_with_bob. rewrite Hvisit, Hpass. eauto.
Qed.

Lemma build_returns_witness :
  exists visited bob root,
    generic_visit_block design_two_components (visit design_two_components 10)
                        0 Bob_init
    = Ok (visited, bob)
    /\ build_with_bob design_two_components 10 0 = Ok (root, bob).
Proof.
  eexists. eexists.
  assert (Hvisit : generic_visit_block design_two_components
                     (visit design_two_components 10) 0 Bob_init = Ok (_, _))
    by (vm_compute; reflexivity).
  destruct (build_returns design_two_components 10 0 _ _ Hvisit) as [root Hroot].
  - intros c Hc Hel. cbn in Hc.
    destruct Hc as [<-|[<-|[]]]; vm_compute; repeat split; auto; discriminate.
  - exists root. split; [exact Hvisit|exact Hroot].
Defined.

(** ** The links of the tree *)

Section BuiltLinks.
Context {ancestry : Ancestry}.
Variable model : Model.

Lemma built_links (fuel : nat) (main : ModelVertexView) (root : Block.t)
      (bob : BobState) :
  build_with_bob model fuel main = Ok (root, bob) ->
  List.NoDup (map Block.oid (subblocks root))
  /\ (forall c,
        In c (connections model) ->
        eligible (list_to_set (all_verticies bob)) c = true ->
        exists b, In b (subblocks root) /\ scope_of model bob c = Some (Block.oid b))
  /\ (forall b,
        In b (subblocks root) ->
        Block.links b
        = map (scoped_link model)
              (List.filter
                 (fun c => eligible (list_to_set (all_verticies bob)) c
                           && scoped_to model bob (Block.oid b) c)
                 (connections model))).
Proof.
  intros Hbuild.
  apply build_with_bob_inv in Hbuild as (visited & heap & Hvisit & Hpass & ->).
  pose proof (root_post model fuel main visited bob Hvisit) as Hpost.
  split; [|split].
  - rewrite built_oids. exact (post_nodup _ _ _ _ _ Hpost).
  - intros c Hc Hel.
    destruct (scope_of model bob c) as [o|] eqn:Hscope.
    + destruct (directory_in_tree model fuel main visited bob _ o Hvisit Hscope)
        as (b0 & Hb0 & Ho & _).
      destruct (built_subblocks_of heap visited (Some (mvv_path model main)) b0 Hb0)
        as (b & Hb & Hoid & _).
      exists b. split; [exact Hb|congruence].
    + destruct (link_connections_raises model bob _ (connections model) c
                  Hc Hel Hscope ∅) as (c' & _ & _ & _ & Hraise).
      rewrite Hraise in Hpass. discriminate.
  - intros b Hb.
    destruct (built_subblocks heap visited _ b Hb) as (b0 & Hb0 & Hoid & _ & ->).
    pose proof (post_links _ _ _ _ _ Hpost) as Hlinks.
    rewrite List.Forall_forall in Hlinks. rewrite (Hlinks b0 Hb0). cbn [app].
    rewrite (link_connections_links model bob _ (connections model) ∅ heap Hpass).
    rewrite Hoid. unfold links_of at 1. rewrite lookup_empty. reflexivity.
Qed.
End BuiltLinks.

Lemma hits_cons (b : Block.t) (bs : list Block.t) (key : option nat) :
  hits (b :: bs) key
  = (if bool_decide (key = Some (Block.oid b)) then 1 else 0) + hits bs key.
Proof. reflexivity. Qed.

Lemma hits_none (bs : list Block.t) (o : nat) :
  ~ In o (map Block.oid bs) -> hits bs (Some o) = 0.
Proof.
  induction bs as [|b bs IH]; intros Hnot; [reflexivity|].
  rewrite hits_cons, bool_decide_eq_false_2.
  - apply IH. intros Hin. apply Hnot. now right.
  - intros [= ->]. apply Hnot. now left.
Qed.

Lemma hits_one (bs : list Block.t) (b0 : Block.t) :
  List.NoDup (map Block.oid bs) -> In b0 bs -> hits bs (Some (Block.oid b0)) = 1.
Proof.
  induction bs as [|b bs IH]; intros Hnodup Hin; [destruct Hin|].
  cbn [map] in Hnodup. inversion Hnodup as [|? ? Hfresh Hrest]; subst.
  rewrite hits_cons. destruct Hin as [->|Hin].
  - rewrite bool_decide_eq_true_2 by reflexivity. now rewrite hits_none.
  - rewrite bool_decide_eq_false_2.
    + now apply IH.
    + intros [= Heq]. apply Hfresh. rewrite <- Heq. now apply in_map.
Qed.

Lemma length_concat_sum {A} (l : list (list A)) :
  length (concat l) = list_sum (map (@length A) l).
Proof.
  induction l as [|x l IH]; [reflexivity|].
  cbn. now rewrite length_app, IH.
Qed.

Lemma list_sum_map_add {A} (f g : A -> nat) (l : list A) :
  list_sum (map (fun x => f x + g x) l) = list_sum (map f l) + list_sum (map g l).
Proof. induction l as [|x l IH]; [reflexivity|]. simpl. rewrite IH. lia. Qed.

Lemma list_sum_zero {A} (l : list A) : list_sum (map (fun _ => 0) l) = 0.
Proof. induction l; cbn; auto. Qed.

(** The connections that pass a test and are scoped to a block, summed
    over blocks with distinct identities, are the connections that pass. *)
Lemma scoped_partition (bs : list Block.t) (key : Edge -> option nat)
      (test : Edge -> bool) (cs : list Edge) :
  List.NoDup (map Block.oid bs) ->
  (forall c, In c cs -> test c = true ->
             exists b, In b bs /\ key c = Some (Block.oid b)) ->
  list_sum
    (map (fun b =>
            length (List.filter
                      (fun c => test c && bool_decide (key c = Some (Block.oid b)))
                      cs))
         bs)
  = length (List.filter test cs).
Proof.
  intros Hnodup. induction cs as [|c cs IH]; intros Hkey.
  - cbn. apply list_sum_zero.
  - specialize (IH (fun c0 Hin => Hkey c0 (or_intror Hin))).
    cbn [List.filter].
    rewrite (map_ext
               (fun b => length
                           (if test c && bool_decide (key c = Some (Block.oid b))
                            then c :: List.filter
                                        (fun c0 => test c0
                                                   && bool_decide
                                                        (key c0 = Some (Block.oid b)))
                                        cs
                            else List.filter
                                   (fun c0 => test c0
                                              && bool_decide
                                                   (key c0 = Some (Block.oid b)))
                                   cs))
               (fun b => (if test c && bool_decide (key c = Some (Block.oid b))
                          then 1 else 0)
                         + length (List.filter
                                     (fun c0 => test c0
                                                && bool_decide
                                                     (key c0 = Some (Block.oid b)))
                                     cs)))
      by (intros b; destruct (test c && bool_decide (key c = Some (Block.oid b)));
          reflexivity).
    rewrite list_sum_map_add, IH.
    destruct (test c) eqn:Htest; cbn [andb length].
    + destruct (Hkey c (or_introl eq_refl) Htest) as (b0 & Hb0 & ->).
      pose proof (hits_one bs b0 Hnodup Hb0) as Hone. unfold hits in Hone.
      now rewrite Hone.
    + now rewrite list_sum_zero.
Qed.

(** X9. The tree that a build returns holds as many links as there are
    connects_to edges with both endpoints registered: no such edge is lost
    and none is put into two blocks. *)
Theorem built_links_count `{ancestry : Ancestry} (model : Model) (fuel : nat)
        (main : ModelVertexView) (root : Block.t) (bob : BobState) :
  build_with_bob model fuel main = Ok (root, bob) ->
  length (tree_links root)
  = length (List.filter (eligible (list_to_set (all_verticies bob)))
                        (connections model)).
Proof.
  intros Hbuild.
  destruct (built_links model fuel main root bob Hbuild) as (Hnodup & Hscope & Hlinks).
  unfold tree_links. rewrite length_concat_sum, map_map.
  rewrite (map_ext_in _
             (fun b => length
                         (List.filter
                            (fun c => eligible (list_to_set (all_verticies bob)) c
                                      && bool_decide
                                           (scope_of model bob c = Some (Block.oid b)))
                            (connections model)))).
  - apply scoped_partition; [exact Hnodup|exact Hscope].
  - intros b Hb. rewrite (Hlinks b Hb), length_map. reflexivity.
Qed.

Lemma built_links_count_witness :
  exists root bob,
    build_with_bob design_two_components 10 0 = Ok (root, bob)
    /\ length (tree_links root) = 2.
Proof.
  eexists. eexists.
  assert (Hbuild : build_with_bob design_two_components 10 0 = Ok (_, _))
    by (vm_compute; reflexivity).
  split; [exact Hbuild|].
  rewrite (built_links_count design_two_components 10 0 _ _ Hbuild).
  vm_compute. reflexivity.
Defined.

(** ** What the record keeps *)

Lemma map_injective {A B} (f : A -> B) (l1 l2 : list A) :
  (forall x y, f x = f y -> x = y) -> map f l1 = map f l2 -> l1 = l2.
Proof.
  intros Hinj. revert l2.
  induction l1 as [|x l1 IH]; intros [|y l2]; cbn; try discriminate; auto.
  intros [= Hxy Hrest]. f_equal; auto.
Qed.

Lemma pin_record_injective (p q : Pin.t) :
  ADict (Pin.to_dict p) = ADict (Pin.to_dict q) -> p = q.
Proof. destruct p, q. cbn. now intros [= -> ->]. Qed.

Lemma link_record_injective (l k : Link.t) :
  ADict (Link.to_dict l) = ADict (Link.to_dict k) -> l = k.
Proof. destruct l, k. cbn. now intros [= -> -> ->]. Qed.

Lemma opt_str_injective (o1 o2 : option string) : opt_str o1 = opt_str o2 -> o1 = o2.
Proof. destruct o1, o2; cbn; congruence. Qed.

Lemma to_dict_erase (b : Block.t) : Block.to_dict (erase b) = Block.to_dict b.
Proof.
  induction b as [name type fields blocks pins links inst src oid IH]
    using Block_nested_ind.
  assert (Hblocks : map (fun block => ADict (Block.to_dict block)) (map erase blocks)
                    = map (fun block => ADict (Block.to_dict block)) blocks).
  { induction IH as [|c cs Hc _ IHcs]; [reflexivity|].
    cbn [map]. now rewrite Hc, IHcs. }
  cbn. now rewrite Hblocks.
Qed.

Lemma to_dict_erase_injective (b1 : Block.t) :
  forall b2, Block.to_dict b1 = Block.to_dict b2 -> erase b1 = erase b2.
Proof.
  induction b1 as [name type fields blocks pins links inst src oid IH]
    using Block_nested_ind.
  intros [name2 type2 fields2 blocks2 pins2 links2 inst2 src2 oid2].
  cbn. intros [= -> -> -> Hblocks Hpins Hlinks Hinst].
  apply (map_injective _ _ _ pin_record_injective) in Hpins.
  apply (map_injective _ _ _ link_record_injective) in Hlinks.
  apply opt_str_injective in Hinst. subst. f_equal.
  revert blocks2 Hblocks.
  induction IH as [|c cs Hc _ IHcs]; intros [|c2 cs2]; cbn; try discriminate; auto.
  intros [= Hc2 Hcs2]. f_equal; auto.
Qed.

(** X10. Two blocks have the same record exactly when they agree, down the
    whole tree, on everything but the two internal attributes (the source
    vertex and the identity of the object): the record loses nothing
    else. *)
Theorem to_dict_injective (b1 b2 : Block.t) :
  Block.to_dict b1 = Block.to_dict b2 <-> erase b1 = erase b2.
Proof.
  split.
  - apply to_dict_erase_injective.
  - intros Heq. rewrite <- (to_dict_erase b1), <- (to_dict_erase b2). now rewrite Heq.
Qed.

(** ** Endpoints and flattened pins *)

Lemma runs_In_result {A B} (f : A -> M B) (xs : list A) (bob : BobState)
      (ys : list B) (bob' : BobState) (x : A) :
  runs f xs bob ys bob' ->
  In x xs ->
  exists b y b', f x b = Ok (y, b') /\ In y ys.
Proof.
  induction 1 as [|x0 xs bob y bob1 ys bob2 Hy _ IH]; intros Hin; [destruct Hin|].
  destruct Hin as [->|Hin].
  - exists bob, y, bob1. split; [exact Hy|now left].
  - destruct (IH Hin) as (b & y0 & b' & Hrun & Hy0).
    exists b, y0, b'. split; [exact Hrun|now right].
Qed.

Section Routes.
Variable model : Model.

(** The pins that a vertex gathers hold those of each of its children. *)
Lemma wander_interface_child (fuel : nat) (v c : ModelVertexView)
      (bob : BobState) (pins : list Pin.t) (bob' : BobState) :
  wander_interface model (visit model fuel) v bob = Ok (pins, bob') ->
  In c (pin_children model v) ->
  exists b r b',
    visit model fuel c b = Ok (r, b')
    /\ forall p, In p (pins_of r) -> In p pins.
Proof.
  intros Hrun Hc. apply wander_interface_inv in Hrun as (rs & Hrs & Hps).
  rewrite (runs_pins model fuel v bob rs bob' Hrs) in Hps. injection Hps as <-.
  destruct (runs_In_result _ _ _ _ _ c Hrs Hc) as (b & r & b' & Hr & Hin).
  exists b, r, b'. split; [exact Hr|].
  intros p Hp. apply in_concat. exists (pins_of r). split; [|exact Hp].
  apply in_map_iff. eauto.
Qed.

(** The visit of the outermost vertex of a route returns, among its pins,
    the pin at the end of the route with the names of the interfaces
    before its own. *)
Lemma visit_interface_route (interfaces : list ModelVertexView) (p : ModelVertexView) :
  interface_route model interfaces p ->
  forall fuel bob r bob',
    visit model fuel (List.hd p interfaces) bob = Ok (r, bob') ->
    exists flattened,
      In flattened (pins_of r)
      /\ Pin.name flattened = join "-" (map (mvv_ref model) (interfaces ++ [p]))
      /\ Pin.fields flattened = Pin.fields (pin_of_vertex model p).
Proof.
  induction interfaces as [|i inner IH]; intros Hroute fuel bob r bob' Hrun;
    (destruct fuel as [|fuel]; [discriminate Hrun|]).
  - cbn [List.hd] in Hrun.
    destruct (visit_materialized model fuel p bob Hroute) as [bob1 Hp].
    rewrite Hp in Hrun. injection Hrun as <- _.
    exists (pin_of_vertex model p). cbn. auto.
  - destruct Hroute as (Hty & Hnext & Hinner).
    cbn [List.hd visit] in Hrun. apply visit_by_type_inv in Hrun.
    rewrite Hty in Hrun. destruct Hrun as (ps & -> & Hps).
    destruct (wander_interface_child fuel i _ bob ps bob' Hps Hnext)
      as (b & r & b' & Hr & Hsub).
    destruct (IH Hinner fuel b r b' Hr) as (fl & Hfl & Hname & Hfields).
    exists (prefix_pin model i fl). split; [|split].
    + cbn [pins_of]. apply in_map, Hsub, Hfl.
    + cbn [prefix_pin Pin.name]. rewrite Hname. cbn [app map].
      rewrite join_cons; [reflexivity|].
      destruct inner; discriminate.
    + exact Hfields.
Qed.
End Routes.

(** X11. The endpoint of a link whose relative path runs through blocks
    and then through nested interfaces down to a pin is the dotted path of
    the blocks, one dot, and then the name of a pin in the pin list of the
    block that encloses the outermost interface: the flattened pin, which
    has the fields of the pin at the end of the path. The interfaces may
    hold any number of other pins, signals and interfaces; when the path
    starts at the interface the endpoint is the name with a dot before
    it. *)
Theorem endpoint_names_flattened_pin (model : Model)
        (pre interfaces : list ModelVertexView) (p v : ModelVertexView)
        (fuel : nat) (bob : BobState) (block : Block.t) (bob' : BobState) :
  Forall (not_interface model) pre ->
  interface_route model interfaces p ->
  interfaces <> [] ->
  In (List.hd p interfaces) (pin_children model v) ->
  generic_visit_block model (visit model fuel) v bob = Ok (block, bob') ->
  exists flattened,
    In flattened (Block.pins block)
    /\ Pin.fields flattened = Pin.fields (pin_of_vertex model p)
    /\ _mod_path model (pre ++ interfaces ++ [p])
       = join "." (map (mvv_ref model) pre) +:+ "." +:+ Pin.name flattened.
Proof.
  intros Hpre Hroute Hne Hchild Hrun.
  apply generic_visit_block_inv in Hrun as (blocks & pins & bob1 & Hsub & -> & _).
  apply find_subelements_inv in Hsub as (rs & bob2 & _ & _ & Hpins).
  destruct (wander_interface_child model fuel v _ bob2 pins bob1 Hpins Hchild)
    as (b & r & b' & Hr & Hin).
  destruct (visit_interface_route model interfaces p Hroute fuel b r b' Hr)
    as (fl & Hfl & Hname & Hfields).
  exists fl. split; [exact (Hin fl Hfl)|]. split; [exact Hfields|].
  rewrite Hname.
  destruct interfaces as [|i inner]; [congruence|].
  destruct Hroute as (Hty & _).
  exact (_mod_path_from_split model [] pre (inner ++ [p]) i Hpre Hty).
Qed.

Lemma design_wide_interface_route :
  interface_route design_wide_interface [2; 4] 7.
Proof.
  split; [reflexivity|]. split; [vm_compute; tauto|].
  split; [reflexivity|]. split; [vm_compute; tauto|].
  right. split; [reflexivity|].
  intros (e & Hone & Hsig & _).
  vm_compute in Hone. injection Hone as <-.
  vm_compute in Hsig. discriminate Hsig.
Qed.

Lemma endpoint_names_flattened_pin_witness :
  exists block bob' flattened,
    generic_visit_block design_wide_interface (visit design_wide_interface 5)
                        1 Bob_init
    = Ok (block, bob')
    /\ map Pin.name (Block.pins block) = ["I-a"; "I-J-c"; "I-J-d"; "I-b"]
    /\ In flattened (Block.pins block)
    /\ _mod_path design_wide_interface [1; 2; 4; 7]
       = "C" +:+ "." +:+ Pin.name flattened.
Proof.
  assert (Hrun : generic_visit_block design_wide_interface
                   (visit design_wide_interface 5) 1 Bob_init = Ok (_, _))
    by (vm_compute; reflexivity).
  destruct (endpoint_names_flattened_pin design_wide_interface [1] [2; 4] 7 1 5
              Bob_init _ _
              ltac:(repeat constructor; unfold not_interface; vm_compute; discriminate)
              design_wide_interface_route
              ltac:(discriminate)
              ltac:(vm_compute; tauto)
              Hrun)
    as (flattened & Hin & _ & Hpath).
  eexists. eexists. exists flattened.
  split; [exact Hrun|]. split; [vm_compute; reflexivity|]. split; assumption.
Defined.

(** ** The view of a design *)



(** ** The pins of a block *)

Section FlatPins.
Variable model : Model.

Lemma runs_concat_map (f : ModelVertexView -> M Visited)
      (h : ModelVertexView -> list Pin.t)
      (xs : list ModelVertexView) (bob : BobState) (rs : list Visited)
      (bob' : BobState) :
  (forall x b y b', In x xs -> f x b = Ok (y, b') -> pins_of y = h x) ->
  runs f xs bob rs bob' ->
  concat (map pins_of rs) = concat (map h xs).
Proof.
  intros Hf Hruns.
  induction Hruns as [|x xs bob y bob1 ys bob2 Hy _ IH]; [reflexivity|].
  cbn [map concat]. f_equal.
  - exact (Hf x bob y bob1 (or_introl eq_refl) Hy).
  - apply IH. intros x0 b0 y0 b0' Hin. apply Hf. now right.
Qed.

Lemma wander_interface_flat_pins (fuel : nat) :
  forall v bob pins bob',
    wander_interface model (visit model fuel) v bob = Ok (pins, bob') ->
    pins = flat_pins model fuel v.
Proof.
  induction fuel as [|fuel IH]; intros v bob pins bob' Hrun;
    apply wander_interface_inv in Hrun as (rs & Hrs & Hps).
  - rewrite (runs_pins model 0 v bob rs bob' Hrs) in Hps. injection Hps as <-.
    unfold flat_pins.
    eapply runs_concat_map; [|exact Hrs].
    intros x b y b' _ Hy. discriminate Hy.
  - rewrite (runs_pins model (S fuel) v bob rs bob' Hrs) in Hps. injection Hps as <-.
    cbn [flat_pins].
    eapply runs_concat_map; [|exact Hrs].
    intros x b y b' Hx Hy. cbn [visit] in Hy. apply visit_by_type_inv in Hy.
    pose proof (pin_child_not_file model v x Hx) as Hfile.
    pose proof (pin_children_types model v) as Hty.
    rewrite List.Forall_forall in Hty. specialize (Hty x Hx).
    apply (bool_decide_eq_true_2 _) in Hty.
    destruct (mvv_type model x); try (vm_compute in Hty; discriminate Hty).
    + destruct Hy as (ps & -> & Hps). cbn [pins_of].
      now rewrite (IH x b ps b' Hps).
    + destruct (elides model x); destruct Hy as [-> _]; reflexivity.
    + destruct Hy as [-> _]. reflexivity.
Qed.
End FlatPins.

(** X14. The pin list of a block is a function of the graph below its
    vertex alone, not of what the builder has visited before: it lists the
    pins and signals that are parts of the vertex in the order of the
    edges, leaves out the elided pins, and has in the place of each
    interface the pins of that interface with its name and a hyphen before
    theirs. *)
Theorem block_pins_from_graph (model : Model) (fuel : nat) (v : ModelVertexView)
        (bob : BobState) (block : Block.t) (bob' : BobState) :
  generic_visit_block model (visit model fuel) v bob = Ok (block, bob') ->
  Block.pins block = flat_pins model fuel v.
Proof.
  intros Hrun.
  apply generic_visit_block_inv in Hrun as (blocks & pins & bob1 & Hsub & -> & _).
  apply find_subelements_inv in Hsub as (rs & bob2 & _ & _ & Hpins).
  exact (wander_interface_flat_pins model fuel v bob2 pins bob1 Hpins).
Qed.

Lemma block_pins_from_graph_witness :
  exists block bob',
    generic_visit_block design_nested_interfaces (visit design_nested_interfaces 4)
                        0 Bob_init
    = Ok (block, bob')
    /\ Block.pins block = [Pin.mk "I1-I2-P" (ADict [])].
Proof.
  eexists. eexists.
  assert (Hrun : generic_visit_block design_nested_interfaces
                   (visit design_nested_interfaces 4) 0 Bob_init = Ok (_, _))
    by (vm_compute; reflexivity).
  split; [exact Hrun|].
  rewrite (block_pins_from_graph design_nested_interfaces 4 0 _ _ _ Hrun).
  vm_compute. reflexivity.
Defined.

(** ** The warnings of a traversal *)

Section Warnings.
Variable model : Model.

Lemma warnings_app (bs1 bs2 : list Block.t) :
  warnings model (bs1 ++ bs2) = warnings model bs1 ++ warnings model bs2.
Proof. unfold warnings. now rewrite List.filter_app, map_app. Qed.

Section Step.
Variable fuel : nat.
Hypothesis visit_warns :
  forall v bob r bob',
    visit model fuel v bob = Ok (r, bob') ->
    log bob' = log bob ++ warnings model (finished_blocks r).

Lemma runs_warn (xs : list ModelVertexView) (bob : BobState)
      (rs : list Visited) (bob' : BobState) :
  runs (visit model fuel) xs bob rs bob' ->
  log bob' = log bob ++ warnings model (concat (map finished_blocks rs)).
Proof.
  induction 1 as [|x xs bob y bob1 ys bob2 Hy _ IH].
  - cbn. now rewrite app_nil_r.
  - cbn [map concat]. rewrite IH, (visit_warns x bob y bob1 Hy), warnings_app.
    now rewrite <- app_assoc.
Qed.

Lemma no_block_not_finished (rs : list Visited) :
  Forall no_block rs -> concat (map finished_blocks rs) = [].
Proof.
  induction 1 as [|r rs Hr _ IH]; [reflexivity|].
  cbn. rewrite IH. destruct r; cbn in *; tauto.
Qed.

Lemma as_blocks_finished (rs : list Visited) :
  forall blocks,
    as_blocks rs = Ok blocks ->
    concat (map finished_blocks rs) = concat (map finished blocks).
Proof.
  induction rs as [|r rs IH]; intros blocks Hrun; cbn in Hrun.
  - injection Hrun as <-. reflexivity.
  - destruct r; try discriminate.
    destruct (as_blocks rs) as [bs|]; [|discriminate].
    injection Hrun as <-. cbn. now rewrite (IH bs eq_refl).
Qed.

Lemma wander_interface_warns (v : ModelVertexView) (bob : BobState)
      (pins : list Pin.t) (bob' : BobState) :
  wander_interface model (visit model fuel) v bob = Ok (pins, bob') ->
  log bob' = log bob.
Proof.
  intros Hrun. apply wander_interface_inv in Hrun as (rs & Hrs & Hps).
  rewrite (runs_warn _ bob rs bob' Hrs).
  apply splice_pins_no_block, filter_no_block, no_block_not_finished in Hps.
  rewrite Hps. cbn. apply app_nil_r.
Qed.

Lemma generic_visit_block_warns (v : ModelVertexView) (bob : BobState)
      (block : Block.t) (bob' : BobState) :
  generic_visit_block model (visit model fuel) v bob = Ok (block, bob') ->
  log bob' = log bob ++ warnings model (finished block).
Proof.
  intros Hrun.
  apply generic_visit_block_inv in Hrun as (blocks & pins & bob1 & Hsub & -> & ->).
  apply find_subelements_inv in Hsub as (rs & bob2 & Hrs & Hbs & Hpins).
  cbn [finished]. rewrite warnings_app, <- (as_blocks_finished rs blocks Hbs).
  cbn [log left_block].
  assert (Hlog : log (checked model v bob1)
                 = log bob1
                   ++ warnings model [Block.mk (mvv_ref model v)
                                         (vertex_type_name (mvv_type model v))
                                         (mvv_data model v) blocks pins []
                                         (definition_of model v) v
                                         (next_oid (checked model v bob1))]).
  { unfold checked, warnings. cbn [List.filter Block.source].
    destruct (Nat.ltb 1 (length (get_adjacents model v mode_out instance_of)));
      cbn [map log warned]; [reflexivity|now rewrite app_nil_r]. }
  rewrite Hlog, (wander_interface_warns v bob2 pins bob1 Hpins),
    (runs_warn _ _ rs bob2 Hrs).
  cbn [log entered]. now rewrite <- app_assoc.
Qed.

Lemma visit_by_type_warns (v : ModelVertexView) (bob : BobState)
      (r : Visited) (bob' : BobState) :
  visit_by_type model (visit model fuel) v bob = Ok (r, bob') ->
  log bob' = log bob ++ warnings model (finished_blocks r).
Proof.
  intros Hrun. apply visit_by_type_inv in Hrun.
  destruct (mvv_type model v).
  - destruct Hrun.
  - destruct Hrun as (b & -> & Hb). exact (generic_visit_block_warns v bob b bob' Hb).
  - destruct Hrun as (b & -> & Hb). exact (generic_visit_block_warns v bob b bob' Hb).
  - destruct Hrun as (ps & -> & Hps). cbn. rewrite app_nil_r.
    exact (wander_interface_warns v bob ps bob' Hps).
  - destruct (elides model v); destruct Hrun as [-> ->]; cbn; now rewrite app_nil_r.
  - destruct Hrun as [-> ->]. cbn. now rewrite app_nil_r.
Qed.
End Step.

Lemma visit_warns (fuel : nat) :
  forall v bob r bob',
    visit model fuel v bob = Ok (r, bob') ->
    log bob' = log bob ++ warnings model (finished_blocks r).
Proof.
  induction fuel as [|fuel IH]; intros v bob r bob' Hrun; [discriminate|].
  exact (visit_by_type_warns fuel IH v bob r bob' Hrun).
Qed.
End Warnings.

(** X15. The log of a traversal: it gains one warning for every block made
    of a vertex with several outbound instance_of edges and nothing else,
    in the order in which the blocks are finished, children before their
    parent; a traversal of a design where no vertex has several
    definitions logs nothing. *)
Theorem traversal_warnings (model : Model) (fuel : nat) (v : ModelVertexView)
        (bob : BobState) (block : Block.t) (bob' : BobState) :
  generic_visit_block model (visit model fuel) v bob = Ok (block, bob') ->
  log bob' = log bob ++ warnings model (finished block)
  /\ ((forall x, length (get_adjacents model x mode_out instance_of) <= 1) ->
      log bob' = log bob).
Proof.
  intros Hrun.
  pose proof (generic_visit_block_warns model fuel (visit_warns model fuel)
                v bob block bob' Hrun) as Hlog.
  split; [exact Hlog|].
  intros Hone. rewrite Hlog. unfold warnings.
  replace (List.filter _ (finished block)) with (@nil Block.t);
    [cbn; apply app_nil_r|].
  symmetry. clear Hlog. induction (finished block) as [|b bs IH]; [reflexivity|].
  cbn [List.filter].
  destruct (Nat.ltb_spec 1 (length (get_adjacents model (Block.source b)
                                                  mode_out instance_of)))
    as [Hlt|_]; [|exact IH].
  specialize (Hone (Block.source b)). lia.
Qed.

Lemma traversal_warnings_witness :
  exists block bob',
    generic_visit_block design_two_definitions (visit design_two_definitions 4)
                        0 Bob_init
    = Ok (block, bob')
    /\ log bob' = ["Block M.R is an instance_of multiple things"].
Proof.
  eexists. eexists.
  assert (Hrun : generic_visit_block design_two_definitions
                   (visit design_two_definitions 4) 0 Bob_init = Ok (_, _))
    by (vm_compute; reflexivity).
  split; [exact Hrun|].
  rewrite (proj1 (traversal_warnings design_two_definitions 4 0 _ _ _ Hrun)).
  vm_compute. reflexivity.
Defined.
